(** * TikTok Live relay: the event hub of [main.py] and the upstream
      adapter of [tiktok_client.py]

    The Python program keeps three module-level objects in [main.py]
    ([tiktok_service], [active_connections], [event_buffer]) and one
    service object in [tiktok_client.py].  Every coroutine of the program
    is embedded as a function on that state; an [await] on the transport
    ([send_json], [receive_text]) is the only place where the outside
    world acts, and it is modelled by an oracle that may depend on
    everything put on the wire so far.  Such an [await] is also where
    the event loop may resume another coroutine: [Main] has each
    coroutine from one suspension to the next and run alone, [Loop] has
    them resumed in any order. *)

From stdpp Require Import gmap strings list.

#[local] Set Warnings "-clear-no-such-hyp".

(** ** Python values, dicts and exceptions *)

(** The values that occur in the dicts the program builds. *)
Inductive Value :=
| VNone
| VBool (b : bool)
| VInt (n : Z)
| VStr (s : string).

#[global] Instance Value_eq_dec : EqDecision Value.
Proof. solve_decision. Defined.

(** An event is a Python [dict] with string keys. *)
Abbreviation Event := (gmap string Value).

(** The exceptions that matter: the one the endpoint catches by name,
    the ones the Python built-ins used in the sources raise, what a
    closed transport raises, and the one asyncio raises into a cancelled
    task. *)
Inductive Exn :=
| KeyError
| RuntimeError
| WebSocketDisconnect
| ConnectionClosed
| CancelledError.

#[global] Instance Exn_eq_dec : EqDecision Exn.
Proof. solve_decision. Defined.

(** Whether [except Exception] catches it: [CancelledError] derives from
    [BaseException] only. *)
Definition is_Exception (e : Exn) : bool :=
  match e with
  | CancelledError => false
  | _ => true
  end.

(** Outcome of a call: a value, or a raised exception. *)
Inductive Result (A : Type) :=
| Ok (a : A)
| Raise (e : Exn).
Arguments Ok {A} a.
Arguments Raise {A} e.

(** A WebSocket object is known to the program by its identity only. *)
Abbreviation WebSocket := nat.

(** ** [tiktok_client.py] *)

Module TikTokClient.

(** The fields of the upstream library's event objects that the handlers
    read. *)
Record CommentEvent := {
  comment_user_unique_id : Value;
  comment_user_nickname : Value;
  comment_comment : Value;
  comment_timestamp : Value
}.

Record GiftEvent := {
  gift_user_unique_id : Value;
  gift_user_nickname : Value;
  gift_gift_name : Value;
  gift_gift_id : Value;
  gift_gift_repeat_count : Value;
  gift_gift_diamond_count : Value;
  gift_streaking : Value;
  gift_repeat_end : Value;
  gift_timestamp : Value
}.

Section Service.
(** The service is generic in what its callbacks are and in the state
    [G] they act on: a callback is a callable object, compared by
    identity, and [invoke] runs it. *)
Context {Callback G : Type} `{EqDecision Callback}.
Variable invoke : Callback → Event → G → G * Result unit.

(** [self.callbacks], [self.is_connected]. *)
Record TikTokService := {
  callbacks : list Callback;
  is_connected : bool
}.

(** [__init__]: no callbacks, not connected. *)
Definition init : TikTokService :=
  {| callbacks := []; is_connected := false |}.

Definition set_is_connected (b : bool) (self : TikTokService) : TikTokService :=
  {| callbacks := callbacks self; is_connected := b |}.

(** Lines 60-64, from the callbacks still to call: each is awaited in
    turn; what [except Exception] catches is printed and the loop goes
    on, anything else ends the loop and propagates.  The state a
    callback left behind stays either way. *)
Fixpoint _broadcast_from (later : list Callback) (data : Event) (g : G)
  : G * Result unit :=
  match later with
  | [] => (g, Ok tt)
  | callback :: later' =>
      match invoke callback data g with
      | (g', Ok _) => _broadcast_from later' data g'
      | (g', Raise e) =>
          if is_Exception e then _broadcast_from later' data g'
          else (g', Raise e)
      end
  end.

(** [_broadcast], run with nothing else scheduled while it awaits. *)
Definition _broadcast (self : TikTokService) (data : Event) (g : G)
  : G * Result unit :=
  _broadcast_from (callbacks self) data g.

(** [register_callback]: [self.callbacks.append(callback)]. *)
Definition register_callback (callback : Callback) (self : TikTokService)
  : TikTokService :=
  {| callbacks := callbacks self ++ [callback];
     is_connected := is_connected self |}.

(** [list.remove]: drops the first occurrence. *)
Fixpoint list_remove_first (x : Callback) (l : list Callback) : list Callback :=
  match l with
  | [] => []
  | y :: l' => if decide (x = y) then l' else y :: list_remove_first x l'
  end.

(** [unregister_callback]: guarded by [if callback in self.callbacks]. *)
Definition unregister_callback (callback : Callback) (self : TikTokService)
  : TikTokService :=
  if decide (callback ∈ callbacks self)
  then {| callbacks := list_remove_first callback (callbacks self);
          is_connected := is_connected self |}
  else self.

(** The dict built by [on_connect]; [room_id] is [self.client.room_id]
    at the time of the call. *)
Definition connect_data (room_id : Value) : Event :=
  <["type" := VStr "system"]>
    (<["message" := VStr "Conectado al live"]>
       (<["room_id" := room_id]> ∅)).

(** The dict built by [on_disconnect]. *)
Definition disconnect_data : Event :=
  <["type" := VStr "system"]>
    (<["message" := VStr "Desconectado del live"]> ∅).

Definition comment_data (event : CommentEvent) : Event :=
  <["type" := VStr "comment"]>
    (<["unique_id" := comment_user_unique_id event]>
       (<["nickname" := comment_user_nickname event]>
          (<["comment" := comment_comment event]>
             (<["timestamp" := comment_timestamp event]> ∅)))).

Definition gift_data (event : GiftEvent) : Event :=
  <["type" := VStr "gift"]>
    (<["unique_id" := gift_user_unique_id event]>
       (<["nickname" := gift_user_nickname event]>
          (<["gift_name" := gift_gift_name event]>
             (<["gift_id" := gift_gift_id event]>
                (<["repeat_count" := gift_gift_repeat_count event]>
                   (<["cost" := gift_gift_diamond_count event]>
                      (<["streaking" := gift_streaking event]>
                         (<["repeat_end" := gift_repeat_end event]>
                            (<["timestamp" := gift_timestamp event]> ∅))))))))).

(** The four handlers installed by [_setup_handlers]: the service and
    the callbacks' state they leave, and how they end. *)
Definition on_connect (room_id : Value) (self : TikTokService) (g : G)
  : TikTokService * G * Result unit :=
  let self := set_is_connected true self in
  let r := _broadcast self (connect_data room_id) g in
  (self, r.1, r.2).

Definition on_disconnect (self : TikTokService) (g : G)
  : TikTokService * G * Result unit :=
  let self := set_is_connected false self in
  let r := _broadcast self disconnect_data g in
  (self, r.1, r.2).

Definition on_comment (event : CommentEvent) (self : TikTokService) (g : G)
  : TikTokService * G * Result unit :=
  let r := _broadcast self (comment_data event) g in
  (self, r.1, r.2).

Definition on_gift (event : GiftEvent) (self : TikTokService) (g : G)
  : TikTokService * G * Result unit :=
  let r := _broadcast self (gift_data event) g in
  (self, r.1, r.2).
End Service.

Arguments TikTokService : clear implicits.

End TikTokClient.

(** ** [main.py] *)

Module Main.

(** One [send_json] put on the wire: who it was for, what it carried and
    how it ended ([None]: delivered). *)
Record Attempt := {
  conn : WebSocket;
  payload : Event;
  outcome : option Exn
}.

#[global] Instance Attempt_eq_dec : EqDecision Attempt.
Proof. solve_decision. Defined.

(** The module-level objects the broadcast callback and the WebSocket
    endpoint share, and the history of the transport. *)
Record Hub := {
  event_buffer : list Event;
  active_connections : gset WebSocket;
  wire : list Attempt
}.

Definition MAX_BUFFER_SIZE : nat := 50.

Definition set_event_buffer (b : list Event) (h : Hub) : Hub :=
  {| event_buffer := b;
     active_connections := active_connections h;
     wire := wire h |}.

Definition set_active_connections (s : gset WebSocket) (h : Hub) : Hub :=
  {| event_buffer := event_buffer h;
     active_connections := s;
     wire := wire h |}.

(** What one subscriber has been delivered, oldest first. *)
Definition received (ws : WebSocket) (w : list Attempt) : list Event :=
  payload <$> filter (λ a, conn a = ws ∧ outcome a = None) w.

(** The sends attempted between two states of the same run. *)
Definition wire_since (h h' : Hub) : list Attempt :=
  drop (length (wire h)) (wire h').

(** [set.remove]: raises [KeyError] on a missing member. *)
Definition set_remove (x : WebSocket) (s : gset WebSocket)
  : Result (gset WebSocket) :=
  if decide (x ∈ s) then Ok (s ∖ {[x]}) else Raise KeyError.

(** What [receive_text] can come back with. *)
Inductive Received :=
| Text (s : string)
| Raises (e : Exn).

(** Where the coroutine of one [websocket_endpoint] call stands. *)
Inductive Phase :=
| Replaying (i : nat)
| Receiving
| Returned
| Raised (e : Exn).

#[global] Instance Phase_eq_dec : EqDecision Phase.
Proof. solve_decision. Defined.

Section Hub.
(** The transport: whether [send_json] of an event on a connection
    raises, given all that was sent before. *)
Variable send_json_raises : list Attempt → WebSocket → Event → option Exn.

Definition send_json (websocket : WebSocket) (data : Event) (h : Hub)
  : Hub * Result unit :=
  let r := send_json_raises (wire h) websocket data in
  ({| event_buffer := event_buffer h;
      active_connections := active_connections h;
      wire := wire h ++ [{| conn := websocket; payload := data; outcome := r |}] |},
   match r with None => Ok tt | Some e => Raise e end).

(** Lines 32-34: [append], then [pop(0)] when the list got too long. *)
Definition buffer_event (data : Event) (h : Hub) : Hub :=
  let b := event_buffer h ++ [data] in
  set_event_buffer (if decide (MAX_BUFFER_SIZE < length b) then tail b else b) h.

(** The iterator the [for] of line 38 holds on [active_connections]:
    the size of the set when the iterator was made, the members it has
    not yielded yet, in the order the set yields them (Python fixes
    none; [elements] stands for it), and whether the set has been
    changed under it since. *)
Record SetIter := {
  si_used : nat;
  si_pending : list WebSocket;
  si_stale : bool
}.

#[global] Instance SetIter_eq_dec : EqDecision SetIter.
Proof. solve_decision. Defined.

Definition set_iter (s : gset WebSocket) : SetIter :=
  {| si_used := size s; si_pending := elements s; si_stale := false |}.

Definition set_stale (it : SetIter) : SetIter :=
  {| si_used := si_used it; si_pending := si_pending it; si_stale := true |}.

(** What [next] on that iterator comes back with. *)
Inductive Next :=
| Yield (connection : WebSocket) (it : SetIter)
| StopIteration
| SizeChanged
| Unknown.

(** CPython's set iterator first compares the size of the set with the
    size it remembers and raises [RuntimeError] ("Set changed size
    during iteration") when they differ.  When the set was changed and
    has its old size again, the iterator goes on over the changed hash
    table: what it yields then depends on the layout of the table and is
    left [Unknown]. *)
Definition set_next (it : SetIter) (s : gset WebSocket) : Next :=
  if decide (size s = si_used it) then
    if si_stale it then Unknown
    else match si_pending it with
         | [] => StopIteration
         | connection :: rest =>
             Yield connection
               {| si_used := si_used it; si_pending := rest; si_stale := false |}
         end
  else SizeChanged.

(** Where the coroutine of one [broadcast_to_websockets] call stands:
    suspended in the [await] of line 40 (the send is on the wire and,
    [disconnected] being local, already accounted for), returned, ended
    by an exception, or past an [Unknown] step of its iterator. *)
Inductive Pass :=
| Fanning (data : Event) (it : SetIter) (disconnected : gset WebSocket)
| PassReturned
| PassRaised (e : Exn)
| PassUnknown.

#[global] Instance Pass_eq_dec : EqDecision Pass.
Proof. solve_decision. Defined.

(** Lines 38-45 from one [next] of the iterator to the following
    suspension.  The [for] statement is outside the [try]: a
    [RuntimeError] of the iterator leaves the function at once, past
    line 45. *)
Definition pass_turn (data : Event) (it : SetIter) (disconnected : gset WebSocket)
  (h : Hub) : Hub * Pass :=
  match set_next it (active_connections h) with
  | Yield connection it' =>
      match send_json connection data h with
      | (h', Ok _) => (h', Fanning data it' disconnected)
      | (h', Raise _) => (h', Fanning data it' ({[connection]} ∪ disconnected))
      end
  | StopIteration =>
      (set_active_connections (active_connections h ∖ disconnected) h,
       PassReturned)
  | SizeChanged => (h, PassRaised RuntimeError)
  | Unknown => (h, PassUnknown)
  end.

(** Lines 32-40: from the call to the first suspension (or to the
    return, when nobody is registered). *)
Definition pass_start (data : Event) (h : Hub) : Hub * Pass :=
  let h1 := buffer_event data h in
  pass_turn data (set_iter (active_connections h1)) ∅ h1.

(** The coroutine resumed. *)
Definition pass_resume (p : Pass) (h : Hub) : Hub * Pass :=
  match p with
  | Fanning data it disconnected => pass_turn data it disconnected h
  | _ => (h, p)
  end.

(** The coroutine resumed [turns] times in a row, nothing else being
    scheduled in between. *)
Fixpoint pass_alone (turns : nat) (st : Hub * Pass) : Hub * Pass :=
  match turns with
  | 0 => st
  | S turns' => pass_alone turns' (pass_resume st.2 st.1)
  end.

(** How a call that ended ended. *)
Definition pass_result (p : Pass) : Result unit :=
  match p with
  | PassRaised e => Raise e
  | _ => Ok tt
  end.

(** The callback registered at startup, run from call to return with
    nothing else scheduled during its sends: after its start, one turn
    for every further subscriber and one for the end of the loop.  (The
    call with other coroutines resumed during its sends is in [Loop]
    below.) *)
Definition broadcast_to_websockets (data : Event) (h : Hub) : Hub * Result unit :=
  let st := pass_alone (size (active_connections h)) (pass_start data h) in
  (st.1, pass_result st.2).

(** Line 155, once [accept] has returned; the [for] of line 158 then
    starts at index 0 of the shared list. *)
Definition endpoint_accept (websocket : WebSocket) (h : Hub) : Hub * Phase :=
  (set_active_connections ({[websocket]} ∪ active_connections h) h, Replaying 0).

(** Lines 158-162: one turn of the replay loop.  The list iterator holds
    an index into [event_buffer] itself, not into a copy. *)
Definition replay_step (websocket : WebSocket) (i : nat) (h : Hub) : Hub * Phase :=
  match event_buffer h !! i with
  | None => (h, Receiving)
  | Some event =>
      match send_json websocket event h with
      | (h', Ok _) => (h', Replaying (S i))
      | (h', Raise _) => (h', Receiving)
      end
  end.

(** Lines 164-169: one turn of the receive loop.  Only
    [WebSocketDisconnect] is caught; the handler's own [remove] can
    raise. *)
Definition receive_step (websocket : WebSocket) (r : Received) (h : Hub)
  : Hub * Phase :=
  match r with
  | Text _ => (h, Receiving)
  | Raises WebSocketDisconnect =>
      match set_remove websocket (active_connections h) with
      | Ok s => (set_active_connections s h, Returned)
      | Raise e => (h, Raised e)
      end
  | Raises e => (h, Raised e)
  end.

(** The replay loop run without anything else scheduled in between:
    the buffer is not touched, so the loop walks the list as it was. *)
Fixpoint replay (websocket : WebSocket) (events : list Event) (h : Hub) : Hub :=
  match events with
  | [] => h
  | event :: events' =>
      match send_json websocket event h with
      | (h', Ok _) => replay websocket events' h'
      | (h', Raise _) => h'
      end
  end.

(** Lines 154-162 in one piece. *)
Definition attach (websocket : WebSocket) (h : Hub) : Hub :=
  let h1 := (endpoint_accept websocket h).1 in
  replay websocket (event_buffer h1) h1.

(** One endpoint coroutine among broadcasts that each run in one piece:
    the endpoint up to its next [await], or a whole call of the
    callback while the endpoint stays suspended.  These schedules leave
    out the runs in which something is resumed between two sends of one
    call; [Loop] below has them. *)
Inductive Action :=
| Ingest (data : Event)
| Replay
| Receive (r : Received).

Definition step (websocket : WebSocket) (a : Action) (st : Hub * Phase)
  : Hub * Phase :=
  match a, st.2 with
  | Ingest data, p => ((broadcast_to_websockets data st.1).1, p)
  | Replay, Replaying i => replay_step websocket i st.1
  | Receive r, Receiving => receive_step websocket r st.1
  | _, _ => st
  end.

Definition run (websocket : WebSocket) (schedule : list Action) (st : Hub * Phase)
  : Hub * Phase :=
  foldl (λ st a, step websocket a st) st schedule.

(** Upstream events handed to the callback one after the other. *)
Definition broadcast_all (events : list Event) (h : Hub) : Hub :=
  foldl (λ h data, (broadcast_to_websockets data h).1) h events.

(** [get_recent_events]: the dict with keys ["events"] and ["count"]. *)
Definition get_recent_events (h : Hub) : list Event * nat :=
  (event_buffer h, length (event_buffer h)).

(** The callables that are ever handed to [register_callback]: the
    closure made by [startup_event]. *)
Inductive Callable : Set :=
| BroadcastToWebsockets.

#[global] Instance Callable_eq_dec : EqDecision Callable.
Proof. solve_decision. Defined.

Definition invoke (callback : Callable) : Event → Hub → Hub * Result unit :=
  match callback with
  | BroadcastToWebsockets => broadcast_to_websockets
  end.

(** The whole program state: the global [tiktok_service] ([None] until
    startup) next to the hub's objects. *)
Record App := {
  tiktok_service : option (TikTokClient.TikTokService Callable);
  hub : Hub
}.

(** The state right after the module is loaded. *)
Definition initial : App :=
  {| tiktok_service := None;
     hub := {| event_buffer := []; active_connections := ∅; wire := [] |} |}.

(** [startup_event]: a fresh service with the broadcast callback
    registered. *)
Definition startup_event (a : App) : App :=
  {| tiktok_service :=
       Some (TikTokClient.register_callback BroadcastToWebsockets TikTokClient.init);
     hub := hub a |}.

(** What the upstream client can hand to the handlers of the service. *)
Inductive Upstream :=
| ConnectEvent (room_id : Value)
| DisconnectEvent
| Comment (event : TikTokClient.CommentEvent)
| Gift (event : TikTokClient.GiftEvent).

Definition handle (u : Upstream) (self : TikTokClient.TikTokService Callable)
  (h : Hub) : TikTokClient.TikTokService Callable * Hub * Result unit :=
  match u with
  | ConnectEvent room_id => TikTokClient.on_connect invoke room_id self h
  | DisconnectEvent => TikTokClient.on_disconnect invoke self h
  | Comment event => TikTokClient.on_comment invoke event self h
  | Gift event => TikTokClient.on_gift invoke event self h
  end.

(** A handler run in one piece.  The handlers belong to the service
    object: before startup there is nobody to call them. *)
Definition upstream (u : Upstream) (a : App) : App :=
  match tiktok_service a with
  | None => a
  | Some self =>
      let r := handle u self (hub a) in
      {| tiktok_service := Some r.1.1; hub := r.1.2 |}
  end.

(** [Config.TIKTOK_USERNAME]; the [config] module is not part of the
    sources at hand. *)
Variable TIKTOK_USERNAME : string.

(** [get_status]: the state it leaves and the dict it returns. *)
Definition get_status (a : App) : App * Result (gmap string Value) :=
  (a,
   Ok (<["connected" :=
           VBool (match tiktok_service a with
                  | Some self => TikTokClient.is_connected self
                  | None => false
                  end)]>
         (<["username" := VStr TIKTOK_USERNAME]>
            (<["active_websockets" :=
                 VInt (Z.of_nat (size (active_connections (hub a))))]>
               (<["buffered_events" :=
                    VInt (Z.of_nat (length (event_buffer (hub a))))]> ∅))))).

End Hub.

End Main.

(** ** Functions used to state the properties *)

Module Wire.
Import Main.

(** What a fan-out over the connections [l] puts on a wire that already
    carries [w]. *)
Fixpoint attempts (send_json_raises : list Attempt → WebSocket → Event → option Exn)
  (data : Event) (w : list Attempt) (l : list WebSocket) : list Attempt :=
  match l with
  | [] => []
  | c :: l' =>
      let a := {| conn := c; payload := data;
                  outcome := send_json_raises w c data |} in
      a :: attempts send_json_raises data (w ++ [a]) l'
  end.

(** The connections whose send raised. *)
Definition failed (new : list Attempt) : gset WebSocket :=
  list_to_set (conn <$> filter (λ a, outcome a ≠ None) new).

End Wire.

(** ** The program as a whole *)

Module Program.
Import Main.

(** The dict the handler of an upstream event hands to [_broadcast]. *)
Definition upstream_data (u : Upstream) : Event :=
  match u with
  | ConnectEvent room_id => TikTokClient.connect_data room_id
  | DisconnectEvent => TikTokClient.disconnect_data
  | Comment event => TikTokClient.comment_data event
  | Gift event => TikTokClient.gift_data event
  end.

(** The values of ["type"] the page served by [root] tells apart. *)
Definition known_kind (e : Event) : Prop :=
  e !! "type" = Some (VStr "system")
  ∨ e !! "type" = Some (VStr "comment")
  ∨ e !! "type" = Some (VStr "gift").

(** The events a schedule broadcasts, in order. *)
Definition ingested (schedule : list Action) : list Event :=
  omap (λ a, match a with Ingest data => Some data | _ => None end) schedule.

(** Whether a step of the endpoint is [receive_text] raising. *)
Definition receive_raises (a : Action) : bool :=
  match a with
  | Receive (Raises _) => true
  | _ => false
  end.

(** Startup, the handlers run in one piece, the turns of the endpoints
    of any number of WebSockets, and the queries.  [moves] applies them
    in any order whatever, also orders no run has (a replay turn at an
    index the loop is not at, a receive turn of an endpoint that has
    returned).  What [moves] does not have is a state in the middle of
    a handler: there the buffer, the flag and the list of callbacks are
    already what they are when the handler ends, since a call of the
    callback writes the buffer before its first send and writes
    neither of the other two. *)
Inductive Move :=
| Startup
| FromUpstream (u : Upstream)
| Accept (websocket : WebSocket)
| ReplayTurn (websocket : WebSocket) (i : nat)
| ReceiveTurn (websocket : WebSocket) (r : Received)
| Status
| RecentEvents.

(** The moves that write [is_connected]. *)
Definition lifecycle (m : Move) : bool :=
  match m with
  | Startup | FromUpstream (ConnectEvent _) | FromUpstream DisconnectEvent => true
  | _ => false
  end.

(** What every move keeps: the bound on the buffer, the kinds of the
    buffered events, and a single registration of the callback. *)
Definition invariant (a : App) : Prop :=
  length (event_buffer (hub a)) ≤ MAX_BUFFER_SIZE
  ∧ Forall known_kind (event_buffer (hub a))
  ∧ (tiktok_service a = None
     ∨ TikTokClient.callbacks <$> tiktok_service a = Some [BroadcastToWebsockets]).

Section Moves.
Variable send_json_raises : list Attempt → WebSocket → Event → option Exn.
Variable TIKTOK_USERNAME : string.

Definition on_hub (f : Hub → Hub) (a : App) : App :=
  {| tiktok_service := tiktok_service a; hub := f (hub a) |}.

Definition move (m : Move) (a : App) : App :=
  match m with
  | Startup => startup_event a
  | FromUpstream u => upstream send_json_raises u a
  | Accept websocket => on_hub (λ h, (endpoint_accept websocket h).1) a
  | ReplayTurn websocket i =>
      on_hub (λ h, (replay_step send_json_raises websocket i h).1) a
  | ReceiveTurn websocket r => on_hub (λ h, (receive_step websocket r h).1) a
  | Status => (get_status TIKTOK_USERNAME a).1
  | RecentEvents => a
  end.

Definition moves (ms : list Move) (a : App) : App :=
  foldl (λ a m, move m a) a ms.

(** The ["connected"] entry of the dict [get_status] returns. *)
Definition status_connected (a : App) : option Value :=
  match (get_status TIKTOK_USERNAME a).2 with
  | Ok d => d !! "connected"
  | Raise _ => None
  end.

End Moves.

End Program.

(** ** The event loop *)

Module Loop.
Import Main.

(** A coroutine of the program: the endpoint of one WebSocket, or a
    handler of the service in [_broadcast], with the callbacks it has
    still to call after the one it is awaiting. *)
Inductive Task :=
| Endpoint (websocket : WebSocket) (phase : Phase)
| Handler (data : Event) (later : list Callable) (pass : Pass).

#[global] Instance Task_eq_dec : EqDecision Task.
Proof. solve_decision. Defined.

(** The program state and the coroutines that have been started. *)
Record World := {
  app : App;
  tasks : list Task
}.

(** What the event loop does next: it takes a new connection to
    [websocket_endpoint], hands an upstream event to its handler, or
    resumes the coroutine at index [k] ([r] is what [receive_text] comes
    back with, if that is what the coroutine awaits). *)
Inductive Act :=
| Connect (websocket : WebSocket)
| Signal (u : Upstream)
| Resume (k : nat) (r : Received).

(** The coroutine an act runs. *)
Definition actor (a : Act) (w : World) : nat :=
  match a with
  | Resume k _ => k
  | _ => length (tasks w)
  end.

(** The upstream events of a list of acts, in order. *)
Definition signals (acts : list Act) : list Upstream :=
  omap (λ a, match a with Signal u => Some u | _ => None end) acts.

(** How many times coroutine [k] is resumed in the course of [acts]. *)
Fixpoint resumes (k : nat) (acts : list Act) : nat :=
  match acts with
  | [] => 0
  | Resume k' _ :: acts' => (if decide (k' = k) then 1 else 0) + resumes k acts'
  | _ :: acts' => resumes k acts'
  end.

(** What [is_connected] is once the handler of [u] has started. *)
Definition flagged (u : Upstream) (self : TikTokClient.TikTokService Callable)
  : TikTokClient.TikTokService Callable :=
  match u with
  | ConnectEvent _ => TikTokClient.set_is_connected true self
  | DisconnectEvent => TikTokClient.set_is_connected false self
  | _ => self
  end.

(** A suspended call whose set was changed under its iterator. *)
Definition disturb (t : Task) : Task :=
  match t with
  | Handler data later (Fanning d it disconnected) =>
      Handler data later (Fanning d (set_stale it) disconnected)
  | _ => t
  end.

(** The other coroutines after a step that took the registry from
    [before] to [after]. *)
Definition bystanders (before after : gset WebSocket) (ts : list Task)
  : list Task :=
  if decide (before = after) then ts else disturb <$> ts.

Section Loop.
Variable send_json_raises : list Attempt → WebSocket → Event → option Exn.

(** The start of a callback: the only callable there is. *)
Definition call (callback : Callable) (data : Event) (h : Hub) : Hub * Pass :=
  match callback with
  | BroadcastToWebsockets => pass_start send_json_raises data h
  end.

(** Lines 60-64 of [_broadcast] between two suspensions: when the
    callback awaited has returned, or has raised what [except Exception]
    catches, the next one is called, and so on until one suspends or
    none is left. *)
Fixpoint settle (data : Event) (later : list Callable) (st : Hub * Pass)
  : Hub * (list Callable * Pass) :=
  match later with
  | [] => (st.1, ([], st.2))
  | callback :: rest =>
      match st.2 with
      | PassReturned => settle data rest (call callback data st.1)
      | PassRaised e =>
          if is_Exception e then settle data rest (call callback data st.1)
          else (st.1, (later, st.2))
      | _ => (st.1, (later, st.2))
      end
  end.

Definition set_hub (h : Hub) (a : App) : App :=
  {| tiktok_service := tiktok_service a; hub := h |}.

(** The world after coroutine [k] has run to [t], leaving the hub [h]. *)
Definition resumed (k : nat) (t : Task) (h : Hub) (w : World) : World :=
  {| app := set_hub h (app w);
     tasks := <[k := t]> (bystanders (active_connections (hub (app w)))
                            (active_connections h) (tasks w)) |}.

(** The world after a new coroutine has run to [t], leaving the app [a]. *)
Definition spawned (t : Task) (a : App) (w : World) : World :=
  {| app := a;
     tasks := bystanders (active_connections (hub (app w)))
                (active_connections (hub a)) (tasks w) ++ [t] |}.

(** One step of the event loop: the coroutine runs up to its next
    suspension (or to its end).  A handler sets the flag and calls its
    first callback at once; the service and its callbacks are those of
    startup, nothing registers or unregisters after it. *)
Definition act (a : Act) (w : World) : World :=
  let h := hub (app w) in
  match a with
  | Connect websocket =>
      let st := endpoint_accept websocket h in
      spawned (Endpoint websocket st.2) (set_hub st.1 (app w)) w
  | Signal u =>
      match tiktok_service (app w) with
      | None => w
      | Some self =>
          let self := flagged u self in
          let data := Program.upstream_data u in
          let st := settle data (TikTokClient.callbacks self) (h, PassReturned) in
          spawned (Handler data st.2.1 st.2.2)
            {| tiktok_service := Some self; hub := st.1 |} w
      end
  | Resume k r =>
      match tasks w !! k with
      | Some (Endpoint websocket (Replaying i)) =>
          let st := replay_step send_json_raises websocket i h in
          resumed k (Endpoint websocket st.2) st.1 w
      | Some (Endpoint websocket Receiving) =>
          let st := receive_step websocket r h in
          resumed k (Endpoint websocket st.2) st.1 w
      | Some (Handler data later (Fanning d it disconnected)) =>
          let st := settle data later
                      (pass_turn send_json_raises d it disconnected h) in
          resumed k (Handler data st.2.1 st.2.2) st.1 w
      | _ => w
      end
  end.

Definition loop (acts : list Act) (w : World) : World :=
  foldl (λ w a, act a w) w acts.

(** What coroutine [k] puts on the wire in the course of [acts]. *)
Fixpoint sends_by (k : nat) (acts : list Act) (w : World) : list Attempt :=
  match acts with
  | [] => []
  | a :: acts' =>
      (if decide (actor a w = k)
       then wire_since (hub (app w)) (hub (app (act a w)))
       else [])
      ++ sends_by k acts' (act a w)
  end.

(** No coroutine but [k] changes the registry in the course of [acts]. *)
Fixpoint quiet (k : nat) (acts : list Act) (w : World) : Prop :=
  match acts with
  | [] => True
  | a :: acts' =>
      (actor a w ≠ k →
       active_connections (hub (app (act a w)))
       = active_connections (hub (app w)))
      ∧ quiet k acts' (act a w)
  end.

(** The service has the one callback of startup, and no handler has
    another callback to call after the one it awaits. *)
Definition started_once (w : World) : Prop :=
  TikTokClient.callbacks <$> tiktok_service (app w) = Some [BroadcastToWebsockets]
  ∧ Forall (λ t, ∀ data later pass, t = Handler data later pass → later = [])
      (tasks w).

(** Where the call made by a handler with the one callback of startup
    stands, seen from the subscribers [registered] when it was made:
    under way, with [sends] and the pending members of its iterator
    making up [registered], nobody taken out yet; or returned, with a
    send to each of [registered] and those whose send raised taken out.
    A call that raised, or whose iterator made an [Unknown] step, is in
    neither. *)
Definition pass_in_order (registered : gset WebSocket) (data : Event)
  (sends : list Attempt) (now : gset WebSocket) (t : option Task) : Prop :=
  Forall (λ s, payload s = data) sends
  ∧ ((∃ it,
        t = Some (Handler data [] (Fanning data it (Wire.failed sends)))
        ∧ si_used it = size registered ∧ si_stale it = false
        ∧ (conn <$> sends) ++ si_pending it = elements registered
        ∧ now = registered)
     ∨ (t = Some (Handler data [] PassReturned)
        ∧ conn <$> sends = elements registered
        ∧ now = registered ∖ Wire.failed sends)).

End Loop.

End Loop.

(** ** Concrete inputs *)

Module Samples.

(** The dict [on_comment] builds for a comment stamped [n]. *)
Definition ev (n : nat) : Event :=
  TikTokClient.comment_data
    {| TikTokClient.comment_user_unique_id := VStr "u";
       TikTokClient.comment_user_nickname := VStr "n";
       TikTokClient.comment_comment := VStr "c";
       TikTokClient.comment_timestamp := VInt (Z.of_nat n) |}.

(** A transport on which every send goes through. *)
Definition all_ok : list Main.Attempt → WebSocket → Event → option Exn :=
  λ _ _ _, None.

(** A transport on which every send to [bad] raises. *)
Definition broken (bad : WebSocket)
  : list Main.Attempt → WebSocket → Event → option Exn :=
  λ _ c _, if decide (c = bad) then Some ConnectionClosed else None.

(** A hub with [n] buffered comments and the given subscribers. *)
Definition hub_with (n : nat) (subscribers : gset WebSocket) : Main.Hub :=
  {| Main.event_buffer := ev <$> seq 0 n;
     Main.active_connections := subscribers;
     Main.wire := [] |}.

(** The comment whose dict is [ev n]. *)
Definition comment (n : nat) : Main.Upstream :=
  Main.Comment
    {| TikTokClient.comment_user_unique_id := VStr "u";
       TikTokClient.comment_user_nickname := VStr "n";
       TikTokClient.comment_comment := VStr "c";
       TikTokClient.comment_timestamp := VInt (Z.of_nat n) |}.

(** The program after startup, with the given subscribers in their
    receive loops and nothing buffered. *)
Definition world_with (subscribers : list WebSocket) : Loop.World :=
  {| Loop.app :=
       {| Main.tiktok_service :=
            Some (TikTokClient.register_callback Main.BroadcastToWebsockets
                    TikTokClient.init);
          Main.hub := hub_with 0 (list_to_set subscribers) |};
     Loop.tasks := (λ ws, Loop.Endpoint ws Main.Receiving) <$> subscribers |}.

End Samples.

(** ** Properties *)

Import Main.

(** *** The replay buffer *)

Section Buffer.
Variable send_json_raises : list Attempt → WebSocket → Event → option Exn.
Abbreviation broadcast := (broadcast_to_websockets send_json_raises).

Lemma send_json_event_buffer ws data h :
  event_buffer (send_json send_json_raises ws data h).1 = event_buffer h.
Proof. reflexivity. Qed.

Lemma send_json_active_connections ws data h :
  active_connections (send_json send_json_raises ws data h).1 = active_connections h.
Proof. reflexivity. Qed.

Lemma pass_turn_event_buffer data it d h :
  event_buffer (pass_turn send_json_raises data it d h).1 = event_buffer h.
Proof.
  unfold pass_turn. destruct (set_next it (active_connections h)); try done.
  simpl. by destruct (send_json_raises _ _ _).
Qed.

Lemma pass_resume_event_buffer p h :
  event_buffer (pass_resume send_json_raises p h).1 = event_buffer h.
Proof. destruct p; try done. apply pass_turn_event_buffer. Qed.

(** No turn of a call touches the buffer after its start. *)
Lemma pass_alone_event_buffer turns st :
  event_buffer (pass_alone send_json_raises turns st).1 = event_buffer st.1.
Proof.
  revert st. induction turns as [|turns IH]; intros st; [done|].
  simpl. by rewrite IH, pass_resume_event_buffer.
Qed.

Lemma pass_start_event_buffer data h :
  event_buffer (pass_start send_json_raises data h).1
  = event_buffer (buffer_event data h).
Proof. apply pass_turn_event_buffer. Qed.

Lemma broadcast_event_buffer data h :
  event_buffer (broadcast data h).1 = event_buffer (buffer_event data h).
Proof.
  unfold broadcast_to_websockets. simpl.
  by rewrite pass_alone_event_buffer, pass_start_event_buffer.
Qed.

Lemma tail_drop {A} (l : list A) : tail l = drop 1 l.
Proof. by destruct l. Qed.

Lemma buffer_event_length data h :
  length (event_buffer h) ≤ MAX_BUFFER_SIZE →
  length (event_buffer (buffer_event data h)) ≤ MAX_BUFFER_SIZE.
Proof.
  intros Hlen. unfold buffer_event. simpl.
  case_decide as Hfull; [|lia].
  rewrite tail_drop, length_drop, length_app. simpl. lia.
Qed.

Lemma buffer_event_full data h :
  length (event_buffer h) = MAX_BUFFER_SIZE →
  event_buffer (buffer_event data h) = tail (event_buffer h) ++ [data].
Proof.
  intros Hlen. unfold buffer_event. simpl.
  rewrite decide_True; [|rewrite length_app; simpl; lia].
  destruct (event_buffer h); [done|reflexivity].
Qed.

Lemma buffer_event_room data h :
  length (event_buffer h) < MAX_BUFFER_SIZE →
  event_buffer (buffer_event data h) = event_buffer h ++ [data].
Proof.
  intros Hlen. unfold buffer_event. simpl.
  rewrite decide_False; [done|rewrite length_app; simpl; lia].
Qed.

Lemma buffer_event_last data h :
  last (event_buffer (buffer_event data h)) = Some data.
Proof.
  unfold buffer_event. simpl. case_decide as Hfull; [|apply last_snoc].
  destruct (event_buffer h) as [|e b]; simpl in *.
  - unfold MAX_BUFFER_SIZE in Hfull. lia.
  - apply last_snoc.
Qed.

Lemma buffer_event_drop data h :
  length (event_buffer h) ≤ MAX_BUFFER_SIZE →
  event_buffer (buffer_event data h)
  = drop (length (event_buffer h ++ [data]) - MAX_BUFFER_SIZE)
         (event_buffer h ++ [data]).
Proof.
  intros Hlen. unfold buffer_event. simpl.
  rewrite length_app. simpl. case_decide as Hfull.
  - replace (length (event_buffer h) + 1 - MAX_BUFFER_SIZE) with 1 by lia.
    apply tail_drop.
  - by replace (length (event_buffer h) + 1 - MAX_BUFFER_SIZE) with 0 by lia.
Qed.

Lemma broadcast_all_cons data events h :
  broadcast_all send_json_raises (data :: events) h
  = broadcast_all send_json_raises events (broadcast data h).1.
Proof. reflexivity. Qed.

(** After any run of broadcasts the buffer is the tail end of everything
    it was ever given. *)
Lemma broadcast_all_event_buffer events h :
  length (event_buffer h) ≤ MAX_BUFFER_SIZE →
  event_buffer (broadcast_all send_json_raises events h)
  = drop (length (event_buffer h ++ events) - MAX_BUFFER_SIZE)
         (event_buffer h ++ events).
Proof.
  revert h. induction events as [|data events IH]; intros h Hlen.
  - simpl. rewrite app_nil_r.
    by replace (length (event_buffer h) - MAX_BUFFER_SIZE) with 0 by lia.
  - rewrite broadcast_all_cons, IH.
    2:{ rewrite broadcast_event_buffer. by apply buffer_event_length. }
    rewrite broadcast_event_buffer, buffer_event_drop by done.
    rewrite (cons_middle data (event_buffer h) events), (assoc_L (++)).
    set (b := event_buffer h ++ [data]).
    rewrite <-drop_app_le by lia. rewrite drop_drop.
    f_equal. rewrite length_drop, !length_app. lia.
Qed.

(** C6. The buffer never grows past [MAX_BUFFER_SIZE]: a broadcast that
    starts from a buffer within the bound ends with a buffer within the
    bound, and when it starts from a full buffer the result is the old
    buffer without its head, followed by the new event. *)
Theorem buffer_bounded_fifo data h :
  length (event_buffer h) ≤ MAX_BUFFER_SIZE →
  length (event_buffer (broadcast data h).1) ≤ MAX_BUFFER_SIZE
  ∧ (length (event_buffer h) = MAX_BUFFER_SIZE →
     event_buffer (broadcast data h).1 = tail (event_buffer h) ++ [data]).
Proof.
  intros Hlen. rewrite broadcast_event_buffer. split.
  - by apply buffer_event_length.
  - apply buffer_event_full.
Qed.

(** C1. After more than [MAX_BUFFER_SIZE] broadcasts, [get_recent_events]
    returns the last [MAX_BUFFER_SIZE] events handed in, oldest first,
    and counts [MAX_BUFFER_SIZE]. *)
Theorem recent_events_are_the_last_ingested events h :
  length (event_buffer h) ≤ MAX_BUFFER_SIZE →
  MAX_BUFFER_SIZE < length events →
  get_recent_events (broadcast_all send_json_raises events h)
  = (drop (length events - MAX_BUFFER_SIZE) events, MAX_BUFFER_SIZE).
Proof.
  intros Hlen Hmany. unfold get_recent_events.
  rewrite broadcast_all_event_buffer by done.
  rewrite length_app, drop_app_ge by lia.
  replace (length (event_buffer h) + length events - MAX_BUFFER_SIZE
           - length (event_buffer h))
    with (length events - MAX_BUFFER_SIZE) by lia.
  f_equal. rewrite length_drop. lia.
Qed.

End Buffer.

(** *** The fan-out pass *)

Section Fanout.
Variable send_json_raises : list Attempt → WebSocket → Event → option Exn.
Abbreviation broadcast := (broadcast_to_websockets send_json_raises).
Abbreviation attempts := (Wire.attempts send_json_raises).

Lemma failed_cons a new :
  Wire.failed (a :: new)
  = (if decide (outcome a = None) then ∅ else {[conn a]}) ∪ Wire.failed new.
Proof.
  unfold Wire.failed. rewrite filter_cons.
  destruct (decide (outcome a = None)) as [Hok|Hbad].
  - rewrite decide_False by (intros Hne; by apply Hne). simpl. set_solver.
  - rewrite decide_True by done. set_solver.
Qed.

Lemma failed_nil : Wire.failed [] = ∅.
Proof. done. Qed.

Lemma failed_app new1 new2 :
  Wire.failed (new1 ++ new2) = Wire.failed new1 ∪ Wire.failed new2.
Proof.
  unfold Wire.failed. rewrite filter_app, fmap_app. set_solver.
Qed.

(** One [next] on an iterator nothing has disturbed, over a set of the
    size it remembers. *)
Lemma set_next_fresh (s : gset WebSocket) l :
  set_next {| si_used := size s; si_pending := l; si_stale := false |} s
  = match l with
    | [] => StopIteration
    | c :: rest =>
        Yield c {| si_used := size s; si_pending := rest; si_stale := false |}
    end.
Proof. unfold set_next. simpl. by rewrite decide_True. Qed.

(** One turn of a call nothing has disturbed. *)
Lemma pass_turn_fresh data l d h :
  pass_turn send_json_raises data
    {| si_used := size (active_connections h); si_pending := l; si_stale := false |}
    d h
  = match l with
    | [] => (set_active_connections (active_connections h ∖ d) h, PassReturned)
    | c :: rest =>
        let a := {| conn := c; payload := data;
                    outcome := send_json_raises (wire h) c data |} in
        ({| event_buffer := event_buffer h;
            active_connections := active_connections h;
            wire := wire h ++ [a] |},
         Fanning data
           {| si_used := size (active_connections h); si_pending := rest;
              si_stale := false |}
           (Wire.failed [a] ∪ d))
    end.
Proof.
  unfold pass_turn. rewrite set_next_fresh. destruct l as [|c rest]; [done|].
  unfold send_json. rewrite failed_cons, failed_nil. simpl.
  destruct (send_json_raises (wire h) c data); simpl; do 2 f_equal; set_solver.
Qed.

Lemma pass_alone_finished turns h :
  pass_alone send_json_raises turns (h, PassReturned) = (h, PassReturned).
Proof. induction turns as [|turns IH]; [done|]. apply IH. Qed.

(** A call resumed often enough with nothing else scheduled: what it has
    put on the wire, and whom it has taken out, once it has walked the
    connections [l] that were still to come. *)
Lemma pass_alone_run data l d h turns :
  length l < turns →
  pass_alone send_json_raises turns
    (h, Fanning data
          {| si_used := size (active_connections h); si_pending := l;
             si_stale := false |} d)
  = ({| event_buffer := event_buffer h;
        active_connections :=
          active_connections h ∖ (Wire.failed (attempts data (wire h) l) ∪ d);
        wire := wire h ++ attempts data (wire h) l |},
     PassReturned).
Proof.
  revert d h turns. induction l as [|c l IH]; intros d h [|turns] Hturns;
    simpl in Hturns; try lia.
  - change (pass_alone send_json_raises (S turns) ?st)
      with (pass_alone send_json_raises turns
              (pass_resume send_json_raises st.2 st.1)).
    simpl pass_resume. rewrite pass_turn_fresh, pass_alone_finished.
    unfold set_active_connections. simpl. rewrite app_nil_r, failed_nil.
    do 2 f_equal. set_solver.
  - change (pass_alone send_json_raises (S turns) ?st)
      with (pass_alone send_json_raises turns
              (pass_resume send_json_raises st.2 st.1)).
    simpl pass_resume. rewrite pass_turn_fresh. cbv zeta.
    set (a := {| conn := c; payload := data;
                 outcome := send_json_raises (wire h) c data |}).
    pose proof (IH (Wire.failed [a] ∪ d)
                  {| event_buffer := event_buffer h;
                     active_connections := active_connections h;
                     wire := wire h ++ [a] |} turns) as Hrun.
    cbn [event_buffer active_connections wire] in Hrun.
    rewrite Hrun by lia. cbn [attempts Wire.attempts]. fold a.
    rewrite <-(assoc_L (++)).
    rewrite (failed_cons a (attempts _ _ _)), (failed_cons a []), failed_nil.
    do 2 f_equal. set_solver.
Qed.

(** Run on its own, the callback returns. *)
Lemma broadcast_run data h :
  pass_alone send_json_raises (size (active_connections h))
    (pass_start send_json_raises data h)
  = ({| event_buffer := event_buffer (buffer_event data h);
        active_connections :=
          active_connections h
          ∖ Wire.failed (attempts data (wire h) (elements (active_connections h)));
        wire := wire h ++ attempts data (wire h) (elements (active_connections h)) |},
     PassReturned).
Proof.
  change (pass_alone send_json_raises (size (active_connections h))
            (pass_start send_json_raises data h))
    with (pass_alone send_json_raises (S (size (active_connections h)))
            (buffer_event data h,
             Fanning data
               {| si_used := size (active_connections (buffer_event data h));
                  si_pending := elements (active_connections h);
                  si_stale := false |} ∅)).
  rewrite pass_alone_run
    by (change (size (active_connections h))
          with (length (elements (active_connections h))); lia).
  simpl. do 2 f_equal. set_solver.
Qed.

Lemma broadcast_returns data h : (broadcast data h).2 = Ok tt.
Proof. unfold broadcast_to_websockets. cbv zeta. by rewrite broadcast_run. Qed.

Lemma attempts_conn data w l : conn <$> attempts data w l = l.
Proof.
  revert w. induction l as [|c l IH]; intros w; simpl; [done|].
  by rewrite IH.
Qed.

Lemma attempts_payload data w l :
  Forall (λ a, payload a = data) (attempts data w l).
Proof.
  revert w. induction l as [|c l IH]; intros w; simpl; constructor; auto.
Qed.

Lemma attempts_outcome data w l a :
  a ∈ attempts data w l →
  ∃ w', outcome a = send_json_raises w' (conn a) data.
Proof.
  revert w. induction l as [|c l IH]; intros w; simpl.
  - by intros ?%elem_of_nil.
  - intros [->|Hin]%elem_of_cons; [by exists w|by eapply IH].
Qed.

Lemma wire_since_app h h' new :
  wire h' = wire h ++ new → wire_since h h' = new.
Proof. intros Hw. unfold wire_since. rewrite Hw. apply drop_app_length. Qed.

(** The state a broadcast ends in, piece by piece. *)
Lemma broadcast_state data h :
  let new := attempts data (wire h) (elements (active_connections h)) in
  event_buffer (broadcast data h).1 = event_buffer (buffer_event data h)
  ∧ wire (broadcast data h).1 = wire h ++ new
  ∧ active_connections (broadcast data h).1
    = active_connections h ∖ Wire.failed new.
Proof.
  cbv zeta. unfold broadcast_to_websockets. cbv zeta.
  by rewrite broadcast_run.
Qed.

End Fanout.

(** *** Attaching a subscriber *)

Section Attach.
Variable send_json_raises : list Attempt → WebSocket → Event → option Exn.
Abbreviation broadcast := (broadcast_to_websockets send_json_raises).
Abbreviation attempts := (Wire.attempts send_json_raises).
Abbreviation replay := (Main.replay send_json_raises).
Abbreviation attach := (Main.attach send_json_raises).
Abbreviation run := (Main.run send_json_raises).

(** The replay loop touches nothing but the wire. *)
Lemma replay_frame ws events h :
  event_buffer (replay ws events h) = event_buffer h
  ∧ active_connections (replay ws events h) = active_connections h.
Proof.
  revert h. induction events as [|event events IH]; intros h; simpl; [done|].
  destruct (send_json_raises (wire h) ws event); simpl; [done|].
  exact (IH (Build_Hub _ _ _)).
Qed.

(** What the replay loop puts on the wire: sends to [ws] carrying a
    prefix of the list it walks; either all of them went through and the
    list was walked to its end, or the last one raised and nothing was
    sent after it. *)
Lemma replay_wire ws events h :
  ∃ new,
    wire (replay ws events h) = wire h ++ new
    ∧ Forall (λ a, conn a = ws) new
    ∧ payload <$> new `prefix_of` events
    ∧ ((Forall (λ a, outcome a = None) new ∧ payload <$> new = events)
       ∨ (∃ done a, new = done ++ [a]
            ∧ Forall (λ a, outcome a = None) done ∧ outcome a ≠ None)).
Proof.
  revert h. induction events as [|event events IH]; intros h; simpl.
  - exists []. rewrite app_nil_r. repeat split; try done. by left.
  - destruct (send_json_raises (wire h) ws event) as [e|] eqn:Hsend; simpl.
    + exists [{| conn := ws; payload := event; outcome := Some e |}].
      repeat split.
      * by repeat constructor.
      * apply prefix_cons, prefix_nil.
      * right. exists [], {| conn := ws; payload := event; outcome := Some e |}.
        by repeat split.
    + destruct (IH (send_json send_json_raises ws event h).1)
        as (new & Hw & Hconn & Hpre & Hend).
      exists ({| conn := ws; payload := event; outcome := None |} :: new).
      unfold send_json in Hw. rewrite Hsend in Hw. simpl in Hw.
      rewrite Hw, <-(assoc_L (++)). repeat split.
      * by constructor.
      * simpl. by apply prefix_cons.
      * destruct Hend as [[Hok Hall]|(done & a & -> & Hok & Hbad)].
        -- left. split; [by constructor|by rewrite fmap_cons, Hall].
        -- right.
           exists ({| conn := ws; payload := event; outcome := None |} :: done), a.
           repeat split; [by constructor|done].
Qed.

(** On a connection whose sends never raise, the whole list arrives. *)
Lemma replay_healthy ws events h :
  (∀ w e, send_json_raises w ws e = None) →
  wire (replay ws events h)
  = wire h ++ ((λ e, {| conn := ws; payload := e; outcome := None |}) <$> events).
Proof.
  intros Hok. revert h. induction events as [|event events IH]; intros h; simpl.
  - by rewrite app_nil_r.
  - rewrite Hok. simpl. rewrite IH. simpl.
    by rewrite <-(assoc_L (++)).
Qed.

Lemma received_app ws w1 w2 :
  received ws (w1 ++ w2) = received ws w1 ++ received ws w2.
Proof. unfold received. by rewrite filter_app, fmap_app. Qed.

Lemma received_delivered ws events :
  received ws ((λ e, {| conn := ws; payload := e; outcome := None |}) <$> events)
  = events.
Proof.
  unfold received. induction events as [|event events IH]; [done|].
  rewrite fmap_cons, filter_cons, decide_True by done.
  by rewrite fmap_cons, IH.
Qed.

(** What one subscriber gets out of a fan-out when its sends never
    raise: the event, once, if it is among the connections walked. *)
Lemma received_attempts ws data w l :
  (∀ w e, send_json_raises w ws e = None) →
  NoDup l →
  received ws (attempts data w l) = if decide (ws ∈ l) then [data] else [].
Proof.
  intros Hok. revert w. unfold received.
  induction l as [|c l IH]; intros w Hnd; simpl; [done|].
  apply NoDup_cons in Hnd as [Hc Hnd]. rewrite filter_cons. simpl.
  destruct (decide (c = ws)) as [->|Hne].
  - rewrite Hok, decide_True, (decide_True (P := ws ∈ ws :: l)) by set_solver.
    simpl. by rewrite IH, decide_False.
  - rewrite decide_False by (by intros [? _]). rewrite IH by done.
    destruct (decide (ws ∈ l)).
    + by rewrite decide_True by set_solver.
    + by rewrite decide_False by set_solver.
Qed.

Lemma healthy_not_failed ws data w l :
  (∀ w e, send_json_raises w ws e = None) →
  ws ∉ Wire.failed (attempts data w l).
Proof.
  intros Hok. unfold Wire.failed.
  rewrite elem_of_list_to_set, list_elem_of_fmap.
  intros (a & -> & [Hbad Hin]%list_elem_of_filter).
  destruct (attempts_outcome send_json_raises _ _ _ _ Hin) as [w' Hw'].
  apply Hbad. by rewrite Hw', Hok.
Qed.

(** A registered subscriber whose sends never raise stays registered
    through a broadcast and is delivered the event once. *)
Lemma broadcast_healthy ws data h :
  (∀ w e, send_json_raises w ws e = None) →
  ws ∈ active_connections h →
  ws ∈ active_connections (broadcast data h).1
  ∧ received ws (wire (broadcast data h).1) = received ws (wire h) ++ [data].
Proof.
  intros Hok Hin.
  destruct (broadcast_state send_json_raises data h) as (_ & Hw & Hc).
  rewrite Hw, Hc, received_app, received_attempts
    by (done || apply NoDup_elements).
  rewrite decide_True by by apply elem_of_elements.
  split; [|done]. apply elem_of_difference. split; [done|].
  by apply healthy_not_failed.
Qed.

Lemma broadcast_all_healthy ws events h :
  (∀ w e, send_json_raises w ws e = None) →
  ws ∈ active_connections h →
  ws ∈ active_connections (broadcast_all send_json_raises events h)
  ∧ received ws (wire (broadcast_all send_json_raises events h))
    = received ws (wire h) ++ events.
Proof.
  intros Hok. revert h.
  induction events as [|data events IH]; intros h Hin.
  - simpl. by rewrite app_nil_r.
  - rewrite broadcast_all_cons.
    destruct (broadcast_healthy ws data h Hok Hin) as [Hin' Hrecv].
    destruct (IH _ Hin') as [Hin'' Hrecv'].
    split; [done|]. by rewrite Hrecv', Hrecv, <-(assoc_L (++)).
Qed.

Lemma run_cons ws a schedule st :
  run ws (a :: schedule) st = run ws schedule (step send_json_raises ws a st).
Proof. reflexivity. Qed.

Lemma run_app ws s1 s2 st :
  run ws (s1 ++ s2) st = run ws s2 (run ws s1 st).
Proof. apply foldl_app. Qed.

(** Once the replay loop is over, resuming it does nothing. *)
Lemma run_replay_receiving ws n h :
  run ws (repeat Replay n) (h, Receiving) = (h, Receiving).
Proof. induction n as [|n IH]; [done|]. simpl. apply IH. Qed.

(** Broadcasts only: the coroutine of the endpoint stays where it is. *)
Lemma run_ingest ws events h p :
  run ws (Ingest <$> events) (h, p)
  = (broadcast_all send_json_raises events h, p).
Proof.
  revert h. induction events as [|data events IH]; intros h; [done|].
  rewrite fmap_cons, run_cons, broadcast_all_cons. apply IH.
Qed.

(** The replay loop resumed often enough, with nothing scheduled in
    between, is the walk over the buffer as it stood. *)
Lemma run_replay ws n i h :
  length (event_buffer h) - i < n →
  run ws (repeat Replay n) (h, Replaying i)
  = (replay ws (drop i (event_buffer h)) h, Receiving).
Proof.
  revert i h. induction n as [|n IH]; intros i h Hn; [lia|].
  simpl repeat. rewrite run_cons. unfold step. simpl. unfold replay_step.
  destruct (event_buffer h !! i) as [event|] eqn:Hi.
  - rewrite (drop_S _ _ _ Hi). apply lookup_lt_Some in Hi. simpl.
    destruct (send_json_raises (wire h) ws event); simpl.
    + apply run_replay_receiving.
    + rewrite (IH (S i) (Build_Hub _ _ _)); [done|simpl; lia].
  - apply lookup_ge_None in Hi. rewrite drop_ge by done.
    apply run_replay_receiving.
Qed.

(** Lines 154-162 run in one piece are [attach]. *)
Lemma run_attach ws n h :
  length (event_buffer h) < n →
  run ws (repeat Replay n) (endpoint_accept ws h) = (attach ws h, Receiving).
Proof.
  intros Hn. unfold endpoint_accept, Main.attach.
  rewrite run_replay by (simpl; lia). done.
Qed.

Lemma attach_frame ws h :
  event_buffer (attach ws h) = event_buffer h
  ∧ active_connections (attach ws h) = {[ws]} ∪ active_connections h.
Proof.
  unfold Main.attach.
  by destruct (replay_frame ws (event_buffer (endpoint_accept ws h).1)
                 (endpoint_accept ws h).1) as [-> ->].
Qed.

(** Whatever the event loop runs, in whatever order, the buffer stays
    within [MAX_BUFFER_SIZE]. *)
Lemma step_buffer_bounded ws a st :
  length (event_buffer st.1) ≤ MAX_BUFFER_SIZE →
  length (event_buffer (step send_json_raises ws a st).1) ≤ MAX_BUFFER_SIZE.
Proof.
  intros Hlen. destruct st as [h p]. unfold step.
  destruct a as [data| |r]; simpl.
  - change (length (event_buffer (broadcast data h).1) ≤ MAX_BUFFER_SIZE).
    rewrite broadcast_event_buffer. by apply buffer_event_length.
  - destruct p; try done. unfold replay_step.
    destruct (event_buffer h !! i); [|done]. simpl.
    by destruct (send_json_raises (wire h) ws _).
  - destruct p; try done. unfold receive_step.
    destruct r as [|[]]; try done.
    by destruct (set_remove ws (active_connections h)).
Qed.

Lemma run_buffer_bounded ws schedule st :
  length (event_buffer st.1) ≤ MAX_BUFFER_SIZE →
  length (event_buffer (run ws schedule st).1) ≤ MAX_BUFFER_SIZE.
Proof.
  revert st. induction schedule as [|a schedule IH]; intros st Hlen; [done|].
  rewrite run_cons. by apply IH, step_buffer_bounded.
Qed.



(** How many sends one fan-out addresses to one connection. *)
Lemma attempts_count ws data w l :
  NoDup l →
  length (filter (λ a, conn a = ws) (attempts data w l))
  = if decide (ws ∈ l) then 1 else 0.
Proof.
  revert w. induction l as [|c l IH]; intros w Hnd; simpl; [done|].
  apply NoDup_cons in Hnd as [Hc Hnd]. rewrite filter_cons. simpl.
  destruct (decide (c = ws)) as [->|Hne]; simpl; rewrite IH by done.
  - rewrite decide_False by done. by rewrite decide_True by set_solver.
  - destruct (decide (ws ∈ l)).
    + by rewrite decide_True by set_solver.
    + by rewrite decide_False by set_solver.
Qed.

(** The [remove] of line 169 on a subscriber that is not registered. *)
Lemma receive_disconnect_absent ws h :
  ws ∉ active_connections h →
  receive_step ws (Raises WebSocketDisconnect) h = (h, Raised KeyError).
Proof.
  intros Hout. unfold receive_step, set_remove. by rewrite decide_False.
Qed.

Lemma receive_disconnect_present ws h :
  ws ∈ active_connections h →
  receive_step ws (Raises WebSocketDisconnect) h
  = (set_active_connections (active_connections h ∖ {[ws]}) h, Returned).
Proof.
  intros Hin. unfold receive_step, set_remove. by rewrite decide_True.
Qed.


End Attach.

(** *** The service, its lifecycle events and the status query *)

Section App.
Variable send_json_raises : list Attempt → WebSocket → Event → option Exn.
Variable TIKTOK_USERNAME : string.
Abbreviation broadcast := (broadcast_to_websockets send_json_raises).
Abbreviation upstream := (Main.upstream send_json_raises).

(** The callbacks of this program never raise when run in one piece,
    so [_broadcast] calls them all: one call of
    [broadcast_to_websockets] after the other. *)
Lemma _broadcast_from_callables (later : list Callable) data h :
  TikTokClient._broadcast_from (invoke send_json_raises) later data h
  = (Main.broadcast_all send_json_raises (replicate (length later) data) h,
     Ok tt).
Proof.
  revert h. induction later as [|[] later IH]; intros h; [done|].
  cbn [TikTokClient._broadcast_from invoke].
  pose proof (broadcast_returns send_json_raises data h) as Hok.
  destruct (broadcast data h) as [h' r] eqn:Hb. simpl in Hok. subst r.
  rewrite IH. simpl replicate.
  rewrite (broadcast_all_cons send_json_raises). by rewrite Hb.
Qed.

(** With the one callback of [startup_event] registered, [_broadcast]
    is one call of [broadcast_to_websockets]. *)
Lemma _broadcast_single (self : TikTokClient.TikTokService Callable) data h :
  TikTokClient.callbacks self = [BroadcastToWebsockets] →
  TikTokClient._broadcast (invoke send_json_raises) self data h
  = ((broadcast data h).1, Ok tt).
Proof.
  intros Hcb. unfold TikTokClient._broadcast.
  by rewrite _broadcast_from_callables, Hcb.
Qed.

Lemma startup_event_callbacks a :
  TikTokClient.callbacks <$> tiktok_service (startup_event a)
  = Some [BroadcastToWebsockets].
Proof. reflexivity. Qed.

(** No handler changes the list of callbacks. *)
Lemma handle_callbacks u self h :
  TikTokClient.callbacks (handle send_json_raises u self h).1.1
  = TikTokClient.callbacks self.
Proof. by destruct u. Qed.

(** C10. [get_status] returns a dict (it does not raise) and hands back
    the state it was given, whatever that state is; its ["connected"]
    entry is the service's flag, and [False] as long as
    [tiktok_service] is [None]. *)
Theorem get_status_total_and_pure a h :
  (get_status TIKTOK_USERNAME a).1 = a
  ∧ (∃ d, (get_status TIKTOK_USERNAME a).2 = Ok d
          ∧ d !! "connected"
            = Some (VBool (default false
                             (TikTokClient.is_connected <$> tiktok_service a)))
          ∧ d !! "active_websockets"
            = Some (VInt (Z.of_nat (size (active_connections (hub a)))))
          ∧ d !! "buffered_events"
            = Some (VInt (Z.of_nat (length (event_buffer (hub a))))))
  ∧ (∃ d, (get_status TIKTOK_USERNAME {| tiktok_service := None; hub := h |}).2
          = Ok d
          ∧ d !! "connected" = Some (VBool false))
  ∧ (∃ d, (get_status TIKTOK_USERNAME initial).2 = Ok d
          ∧ d !! "connected" = Some (VBool false)
          ∧ d !! "active_websockets" = Some (VInt 0)
          ∧ d !! "buffered_events" = Some (VInt 0)).
Proof.
  unfold get_status. simpl. repeat split.
  - eexists. split; [done|]. destruct (tiktok_service a); by repeat split.
  - eexists. by split.
  - eexists. by repeat split.
Qed.

End App.

(** *** Runs on concrete inputs *)

Import Samples.

(** C1 on 51 comments broadcast into the empty hub. *)
Lemma recent_events_are_the_last_ingested_at_51 :
  get_recent_events (broadcast_all all_ok (ev <$> seq 0 51) (hub_with 0 ∅))
  = (drop (length (ev <$> seq 0 51) - MAX_BUFFER_SIZE) (ev <$> seq 0 51),
     MAX_BUFFER_SIZE).
Proof.
  apply (recent_events_are_the_last_ingested all_ok (ev <$> seq 0 51) (hub_with 0 ∅)).
  - vm_compute. lia.
  - vm_compute. lia.
Defined.

(** C6 on a full buffer. *)
Lemma buffer_bounded_fifo_at_full :
  length (event_buffer (broadcast_to_websockets all_ok (ev 50) (hub_with 50 {[1]})).1)
  ≤ MAX_BUFFER_SIZE
  ∧ (length (event_buffer (hub_with 50 {[1]})) = MAX_BUFFER_SIZE →
     event_buffer (broadcast_to_websockets all_ok (ev 50) (hub_with 50 {[1]})).1
     = tail (event_buffer (hub_with 50 {[1]})) ++ [ev 50]).
Proof.
  apply (buffer_bounded_fifo all_ok (ev 50) (hub_with 50 {[1]})).
  vm_compute. lia.
Defined.





(** C4 on the code: a subscriber whose send raised is taken out by the
    cleanup of that broadcast; when its endpoint then sees the
    disconnect, [remove] raises [KeyError] out of the handler.  On a
    healthy connection the same disconnect returns normally. *)
Theorem disconnect_after_cleanup_raises_KeyError :
  let start := endpoint_accept 7 (hub_with 0 ∅) in
  let st := run (broken 7) 7 [Replay; Ingest (ev 0)] start in
  st.2 = Receiving
  ∧ (7 ∉ active_connections st.1)
  ∧ (run (broken 7) 7 [Receive (Raises WebSocketDisconnect)] st).2 = Raised KeyError
  ∧ (run all_ok 7 [Replay; Ingest (ev 0); Receive (Raises WebSocketDisconnect)] start).2
    = Returned.
Proof. cbv zeta. apply (bool_decide_unpack _). by vm_compute. Qed.


(** *** The list of callbacks *)

Section Callbacks.
Context {Callback : Type} `{EqDecision Callback}.
Implicit Types (l : list Callback) (self : TikTokClient.TikTokService Callback).

Lemma list_remove_first_absent (x : Callback) l :
  x ∉ l → TikTokClient.list_remove_first x l = l.
Proof.
  induction l as [|y l IH]; simpl; [done|]. intros Hx.
  rewrite decide_False by set_solver. f_equal. apply IH. set_solver.
Qed.

Lemma list_remove_first_split (x : Callback) l :
  x ∈ l →
  ∃ l1 l2, l = l1 ++ x :: l2 ∧ (x ∉ l1)
           ∧ TikTokClient.list_remove_first x l = l1 ++ l2.
Proof.
  induction l as [|y l IH]; simpl; [by intros ?%elem_of_nil|]. intros Hx.
  destruct (decide (x = y)) as [->|Hne].
  - exists [], l. split; [done|]. split; [apply not_elem_of_nil|done].
  - destruct IH as (l1 & l2 & -> & Hl1 & ->); [set_solver|].
    exists (y :: l1), l2. split; [done|]. split; [set_solver|done].
Qed.

Lemma list_remove_first_snoc (x : Callback) l :
  TikTokClient.list_remove_first x (l ++ [x])
  = if decide (x ∈ l) then TikTokClient.list_remove_first x l ++ [x] else l.
Proof.
  induction l as [|y l IH]; simpl.
  - by rewrite decide_True.
  - destruct (decide (x = y)) as [->|Hne].
    + by rewrite decide_True by set_solver.
    + rewrite IH. destruct (decide (x ∈ l)).
      * by rewrite decide_True by set_solver.
      * by rewrite decide_False by set_solver.
Qed.

(** [unregister_callback] never raises.  A callback that is not
    registered leaves the service as it is; one that is registered loses
    its first entry only, the other entries keep their order. *)
Theorem unregister_callback_removes_first callback self :
  (callback ∉ TikTokClient.callbacks self →
   TikTokClient.unregister_callback callback self = self)
  ∧ (callback ∈ TikTokClient.callbacks self →
     ∃ l1 l2,
       TikTokClient.callbacks self = l1 ++ callback :: l2
       ∧ (callback ∉ l1)
       ∧ TikTokClient.callbacks (TikTokClient.unregister_callback callback self)
         = l1 ++ l2)
  ∧ TikTokClient.is_connected (TikTokClient.unregister_callback callback self)
    = TikTokClient.is_connected self.
Proof.
  unfold TikTokClient.unregister_callback. repeat split.
  - intros Hout. by rewrite decide_False.
  - intros Hin. rewrite decide_True by done. simpl.
    by apply list_remove_first_split.
  - by case_decide.
Qed.

(** Registering a callback and unregistering it again gives the service
    back only when the callback was not registered before; when it was,
    it is the earlier entry that goes and the new one stays last. *)
Theorem register_then_unregister callback self :
  (callback ∉ TikTokClient.callbacks self →
   TikTokClient.unregister_callback callback
     (TikTokClient.register_callback callback self) = self)
  ∧ (callback ∈ TikTokClient.callbacks self →
     TikTokClient.callbacks
       (TikTokClient.unregister_callback callback
          (TikTokClient.register_callback callback self))
     = TikTokClient.list_remove_first callback (TikTokClient.callbacks self)
       ++ [callback]).
Proof.
  unfold TikTokClient.unregister_callback, TikTokClient.register_callback.
  simpl. rewrite decide_True by set_solver. rewrite list_remove_first_snoc.
  split; intros Hc.
  - rewrite decide_False by done. by destruct self.
  - by rewrite decide_True.
Qed.

Lemma _broadcast_from_caught (raises : Callback → Result unit) l data
  (log : list Callback) :
  Forall (λ c, ∀ e, raises c = Raise e → is_Exception e = true) l →
  TikTokClient._broadcast_from
    (λ callback _ log, (log ++ [callback], raises callback)) l data log
  = (log ++ l, Ok tt).
Proof.
  intros Hl. revert log. induction Hl as [|c l Hc _ IH]; intros log; simpl.
  - by rewrite app_nil_r.
  - destruct (raises c) as [[]|e] eqn:Hr.
    + by rewrite IH, <-(assoc_L (++)).
    + rewrite (Hc e) by done. by rewrite IH, <-(assoc_L (++)).
Qed.

(** [_broadcast] calls the registered callbacks in the order of
    registration.  A callback that returns, or raises what
    [except Exception] catches, does not keep the later ones from being
    called.  The first callback that raises anything else ends the loop:
    the callbacks after it are not called and its exception leaves
    [_broadcast]. *)
Theorem _broadcast_calls_until_uncaught (raises : Callback → Result unit)
  self data (log : list Callback) :
  let call := λ callback (_ : Event) log, (log ++ [callback], raises callback) in
  let caught := λ c, ∀ e, raises c = Raise e → is_Exception e = true in
  (Forall caught (TikTokClient.callbacks self) →
   TikTokClient._broadcast call self data log
   = (log ++ TikTokClient.callbacks self, Ok tt))
  ∧ (∀ l1 c l2 e,
       TikTokClient.callbacks self = l1 ++ c :: l2 →
       Forall caught l1 →
       raises c = Raise e →
       is_Exception e = false →
       TikTokClient._broadcast call self data log = (log ++ l1 ++ [c], Raise e)).
Proof.
  cbv zeta. unfold TikTokClient._broadcast. split.
  - apply _broadcast_from_caught.
  - intros l1 c l2 e -> Hl1 Hr He. revert log.
    induction Hl1 as [|c1 l1 Hc1 _ IH]; intros log; simpl.
    + by rewrite Hr, He.
    + destruct (raises c1) as [[]|e1] eqn:Hr1.
      * by rewrite IH, <-(assoc_L (++)).
      * rewrite (Hc1 e1) by done. by rewrite IH, <-(assoc_L (++)).
Qed.

End Callbacks.

(** *** A run of broadcasts *)

Section Delivery.
Variable send_json_raises : list Attempt → WebSocket → Event → option Exn.
Abbreviation broadcast := (broadcast_to_websockets send_json_raises).
Abbreviation broadcast_all := (Main.broadcast_all send_json_raises).
Abbreviation attempts := (Wire.attempts send_json_raises).

Lemma filter_none {A} (P : A → Prop) `{∀ x, Decision (P x)} (l : list A) :
  Forall (λ x, ¬ P x) l → filter P l = [].
Proof.
  induction 1 as [|x l Hx _ IH]; [done|].
  by rewrite filter_cons, decide_False.
Qed.

Lemma attempts_length data w l : length (attempts data w l) = length l.
Proof.
  rewrite <-(length_fmap conn (attempts data w l)).
  by rewrite (attempts_conn send_json_raises).
Qed.

Lemma received_attempts_absent ws data w l :
  ws ∉ l → received ws (attempts data w l) = [].
Proof.
  revert w. unfold received.
  induction l as [|c l IH]; intros w Hout; simpl; [done|].
  rewrite filter_cons. simpl.
  rewrite decide_False by (intros [-> _]; set_solver).
  apply IH. set_solver.
Qed.

(** One fan-out hands a subscriber the event once or not at all. *)
Lemma received_attempts_sublist ws data w l :
  NoDup l → received ws (attempts data w l) `sublist_of` [data].
Proof.
  revert w. induction l as [|c l IH]; intros w Hnd; simpl.
  - apply sublist_nil_l.
  - apply NoDup_cons in Hnd as [Hc Hnd].
    destruct (decide (c = ws)) as [->|Hne].
    + unfold received. rewrite filter_cons. simpl. case_decide.
      * rewrite fmap_cons.
        change (payload <$> filter _ ?l) with (received ws l).
        by rewrite received_attempts_absent.
      * change (payload <$> filter _ ?l) with (received ws l).
        rewrite received_attempts_absent by done. apply sublist_nil_l.
    + unfold received. rewrite filter_cons. simpl.
      rewrite decide_False by (by intros [? _]). by apply IH.
Qed.

(** What any number of broadcasts puts on the wire. *)
Lemma broadcast_all_wire events h :
  ∃ new,
    wire (broadcast_all events h) = wire h ++ new
    ∧ Forall (λ a, conn a ∈ active_connections h) new
    ∧ active_connections (broadcast_all events h) ⊆ active_connections h
    ∧ (∀ ws, received ws new `sublist_of` events)
    ∧ length new ≤ length events * size (active_connections h).
Proof.
  revert h. induction events as [|data events IH]; intros h.
  - exists []. simpl. rewrite app_nil_r. repeat split; try done.
    all: intros ws; apply sublist_nil_l.
  - rewrite broadcast_all_cons.
    destruct (broadcast_state send_json_raises data h) as (_ & Hw & Hc).
    destruct (IH (broadcast data h).1) as (new & Hw' & Hin & Hsub & Hord & Hlen).
    set (first := attempts data (wire h) (elements (active_connections h))) in *.
    assert (active_connections (broadcast data h).1 ⊆ active_connections h)
      as Hshrink by (rewrite Hc; set_solver).
    exists (first ++ new). rewrite Hw', Hw, <-(assoc_L (++)).
    split; [done|]. split; [|split; [|split]].
    + apply Forall_app. split.
      * apply Forall_forall. intros a Ha. apply elem_of_elements.
        rewrite <-(attempts_conn send_json_raises data (wire h)
                     (elements (active_connections h))).
        apply list_elem_of_fmap. by exists a.
      * eapply Forall_impl; [done|]. intros a Ha. simpl in Ha. set_solver.
    + set_solver.
    + intros ws. rewrite received_app.
      apply (sublist_app _ [data] _ events); [|done].
      apply received_attempts_sublist, NoDup_elements.
    + rewrite length_app. unfold first. rewrite attempts_length.
      change (length (elements (active_connections h)))
        with (size (active_connections h)).
      apply subseteq_size in Hshrink. simpl. nia.
Qed.



(** For calls of the callback that each run from call to return with
    no other coroutine resumed during their sends (so that each reaches
    line 45): a subscriber whose send raised in such a call is out of
    the registry when the call returns, and no later such call sends to
    it.  A call during which another coroutine changes the registry
    does not reach line 45; those runs are in [Loop]. *)
Theorem failed_subscriber_gets_nothing_more ws data events h :
  ws ∈ Wire.failed (wire_since h (broadcast data h).1) →
  let h1 := (broadcast data h).1 in
  (ws ∉ active_connections h1)
  ∧ Forall (λ a, conn a ≠ ws) (wire_since h1 (broadcast_all events h1))
  ∧ received ws (wire (broadcast_all events h1)) = received ws (wire h1).
Proof.
  intros Hfailed. cbv zeta.
  destruct (broadcast_state send_json_raises data h) as (_ & Hw & Hc).
  rewrite (wire_since_app _ _ _ Hw) in Hfailed.
  assert (ws ∉ active_connections (broadcast data h).1) as Hout
    by (rewrite Hc; set_solver).
  destruct (broadcast_all_wire events (broadcast data h).1)
    as (new & Hw' & Hin & _).
  rewrite (wire_since_app _ _ _ Hw'), Hw'.
  assert (Forall (λ a, conn a ≠ ws) new) as Hnone.
  { eapply Forall_impl; [done|]. intros a Ha Heq. simpl in Ha.
    by rewrite Heq in Ha. }
  split; [done|]. split; [done|].
  rewrite received_app. unfold received at 2.
  rewrite filter_none, app_nil_r; [done|].
  eapply Forall_impl; [done|]. by intros a Ha [? _].
Qed.

Lemma healthy_no_failure data w l :
  (∀ w c e, send_json_raises w c e = None) →
  Wire.failed (attempts data w l) = ∅
  ∧ Forall (λ a, outcome a = None) (attempts data w l).
Proof.
  intros Hok.
  assert (Forall (λ a, outcome a = None) (attempts data w l)) as Hall.
  { apply Forall_forall. intros a Ha.
    destruct (attempts_outcome send_json_raises _ _ _ _ Ha) as [w' ->].
    apply Hok. }
  split; [|done]. unfold Wire.failed.
  rewrite filter_none; [done|].
  eapply Forall_impl; [done|]. by intros a Ha Hbad.
Qed.


(** As long as the buffer has room for them, every event broadcast is
    kept: nothing is evicted before the buffer holds
    [MAX_BUFFER_SIZE] events. *)
Theorem buffer_keeps_everything_below_capacity events h :
  length (event_buffer h) + length events ≤ MAX_BUFFER_SIZE →
  get_recent_events (broadcast_all events h)
  = (event_buffer h ++ events, length (event_buffer h) + length events).
Proof.
  intros Hroom. unfold get_recent_events.
  rewrite broadcast_all_event_buffer by lia.
  replace (length (event_buffer h ++ events) - MAX_BUFFER_SIZE) with 0
    by (rewrite length_app; lia).
  rewrite drop_0. by rewrite length_app.
Qed.

End Delivery.

(** *** One endpoint among broadcasts *)

Section Endpoint.
Variable send_json_raises : list Attempt → WebSocket → Event → option Exn.
Abbreviation broadcast := (broadcast_to_websockets send_json_raises).
Abbreviation attach := (Main.attach send_json_raises).
Abbreviation run := (Main.run send_json_raises).
Abbreviation step := (Main.step send_json_raises).

(** Attaching talks to the new subscriber only: what it sends is a
    prefix of the buffer, in buffer order, addressed to that subscriber;
    nobody else is sent anything, the buffer is not touched and the
    registry gains that subscriber and nothing else.  With an empty
    buffer nothing is sent. *)
Theorem attach_talks_to_the_new_subscriber_only ws h :
  let h' := attach ws h in
  wire h' = wire h ++ wire_since h h'
  ∧ Forall (λ a, conn a = ws) (wire_since h h')
  ∧ payload <$> wire_since h h' `prefix_of` event_buffer h
  ∧ length (wire_since h h') ≤ length (event_buffer h)
  ∧ event_buffer h' = event_buffer h
  ∧ active_connections h' = {[ws]} ∪ active_connections h
  ∧ (∀ ws', ws' ≠ ws → received ws' (wire h') = received ws' (wire h)).
Proof.
  cbv zeta. destruct (attach_frame send_json_raises ws h) as [Hbuf Hreg].
  unfold Main.attach in *. cbv zeta in *.
  destruct (replay_wire send_json_raises ws
              (event_buffer (endpoint_accept ws h).1) (endpoint_accept ws h).1)
    as (new & Hw & Hconn & Hpre & _).
  change (wire (endpoint_accept ws h).1) with (wire h) in Hw.
  change (event_buffer (endpoint_accept ws h).1) with (event_buffer h) in Hpre.
  rewrite (wire_since_app h _ new Hw), Hw.
  split; [done|]. split; [done|]. split; [done|]. split.
  { apply prefix_length in Hpre. by rewrite length_fmap in Hpre. }
  split; [done|]. split; [done|].
  intros ws' Hne. rewrite received_app. unfold received at 2.
  rewrite filter_none, app_nil_r; [done|].
  eapply Forall_impl; [done|]. intros a Ha [Hb _]. simpl in Ha. congruence.
Qed.

(** A disconnect right after attaching returns normally and takes the
    subscriber out again: the registry is the one from before the
    attach when the subscriber was new to it, and the buffer is
    untouched. *)
Theorem attach_then_disconnect ws h :
  let st := receive_step ws (Raises WebSocketDisconnect) (attach ws h) in
  st.2 = Returned
  ∧ active_connections st.1 = active_connections h ∖ {[ws]}
  ∧ (ws ∉ active_connections h → active_connections st.1 = active_connections h)
  ∧ event_buffer st.1 = event_buffer h.
Proof.
  cbv zeta. destruct (attach_frame send_json_raises ws h) as [Hbuf Hreg].
  rewrite receive_disconnect_present by (rewrite Hreg; set_solver).
  simpl. rewrite Hreg, Hbuf. repeat split; try done; set_solver.
Qed.


(** Every step only adds to the wire. *)
Lemma step_wire ws a st :
  ∃ new, wire (step ws a st).1 = wire st.1 ++ new.
Proof.
  destruct st as [h p]. unfold Main.step. destruct a as [data| |r]; simpl.
  - destruct (broadcast_state send_json_raises data h) as (_ & Hw & _).
    eexists. exact Hw.
  - destruct p; try (exists []; by rewrite app_nil_r).
    unfold replay_step. destruct (event_buffer h !! i).
    + simpl. destruct (send_json_raises (wire h) ws _); by eexists.
    + exists []. by rewrite app_nil_r.
  - exists []. rewrite app_nil_r. destruct p; try done.
    unfold receive_step. destruct r as [|[]]; try done.
    by destruct (set_remove ws (active_connections h)).
Qed.

Lemma run_wire ws schedule st :
  ∃ new, wire (run ws schedule st).1 = wire st.1 ++ new.
Proof.
  revert st. induction schedule as [|a schedule IH]; intros st.
  - exists []. by rewrite app_nil_r.
  - rewrite run_cons. destruct (IH (step ws a st)) as [new2 ->].
    destruct (step_wire ws a st) as [new1 ->].
    exists (new1 ++ new2). by rewrite (assoc_L (++)).
Qed.

(** One step, seen from a registered subscriber whose sends never
    raise and whose [receive_text] does not raise in this step. *)
Lemma step_healthy ws a st :
  (∀ w e, send_json_raises w ws e = None) →
  ws ∈ active_connections st.1 →
  Program.receive_raises a = false →
  ∃ new,
    wire (step ws a st).1 = wire st.1 ++ new
    ∧ ws ∈ active_connections (step ws a st).1
    ∧ Program.ingested [a] `sublist_of` received ws new.
Proof.
  intros Hok Hin Ha. destruct st as [h p]. simpl in Hin.
  unfold Main.step. destruct a as [data| |r]; cbn [fst snd].
  - destruct (broadcast_healthy send_json_raises ws data h Hok Hin)
      as [Hin' Hrecv].
    destruct (broadcast_state send_json_raises data h) as (_ & Hw & _).
    eexists. split; [exact Hw|]. split; [done|].
    rewrite Hw, received_app in Hrecv. apply app_inv_head in Hrecv.
    by rewrite Hrecv.
  - destruct p; try (exists []; rewrite app_nil_r; by repeat split).
    unfold replay_step. destruct (event_buffer h !! i) as [event|].
    + unfold send_json. rewrite Hok. simpl. eexists. split; [done|].
      split; [done|]. apply sublist_nil_l.
    + exists []. rewrite app_nil_r. by repeat split.
  - exists []. rewrite app_nil_r. destruct r as [s|e]; [|done].
    destruct p; by repeat split.
Qed.

(** One endpoint among calls of the callback that each run in one
    piece, no coroutine being resumed during the sends of a call: the
    events broadcast while the subscriber is registered all reach it, in
    order, however its replay turns and its received frames are placed
    between those calls, as long as its sends do not raise and its
    endpoint is not told of a disconnect.  Runs in which another
    endpoint connects or disconnects during a call are not among these
    schedules. *)
Theorem live_events_reach_a_healthy_subscriber ws schedule st :
  (∀ w e, send_json_raises w ws e = None) →
  ws ∈ active_connections st.1 →
  Forall (λ a, Program.receive_raises a = false) schedule →
  let st' := run ws schedule st in
  ws ∈ active_connections st'.1
  ∧ Program.ingested schedule `sublist_of` received ws (wire_since st.1 st'.1).
Proof.
  intros Hok. cbv zeta. revert st.
  induction schedule as [|a schedule IH]; intros st Hin Hsched.
  - split; [done|]. apply sublist_nil_l.
  - apply Forall_cons in Hsched as [Ha Hsched]. rewrite run_cons.
    destruct (step_healthy ws a st Hok Hin Ha) as (new1 & Hw1 & Hin1 & Hsub1).
    destruct (IH (step ws a st) Hin1 Hsched) as [Hin' Hsub].
    split; [done|].
    destruct (run_wire ws schedule (step ws a st)) as [new2 Hw2].
    rewrite (wire_since_app _ _ _ Hw2) in Hsub.
    assert (wire (run ws schedule (step ws a st)).1
            = wire st.1 ++ (new1 ++ new2)) as Hw
      by (by rewrite Hw2, Hw1, <-(assoc_L (++))).
    rewrite (wire_since_app _ _ _ Hw), received_app.
    change (a :: schedule) with ([a] ++ schedule).
    unfold Program.ingested in *. rewrite omap_app.
    by apply sublist_app.
Qed.

End Endpoint.

(** *** The whole program *)

Section Reachable.
Variable send_json_raises : list Attempt → WebSocket → Event → option Exn.
Variable TIKTOK_USERNAME : string.
Abbreviation broadcast := (broadcast_to_websockets send_json_raises).
Abbreviation broadcast_all := (Main.broadcast_all send_json_raises).
Abbreviation move := (Program.move send_json_raises TIKTOK_USERNAME).
Abbreviation moves := (Program.moves send_json_raises TIKTOK_USERNAME).
Abbreviation status_connected := (Program.status_connected TIKTOK_USERNAME).

(** Reads one entry off both sides of an equation between dicts. *)
Ltac entry H k :=
  let F := fresh "F" in
  pose proof (f_equal (λ d : Event, d !! k) H) as F; vm_compute in F.

Lemma comment_data_inj e1 e2 :
  TikTokClient.comment_data e1 = TikTokClient.comment_data e2 → e1 = e2.
Proof.
  intros H. destruct e1, e2.
  entry H "unique_id". entry H "nickname". entry H "comment".
  entry H "timestamp". congruence.
Qed.

Lemma gift_data_inj g1 g2 :
  TikTokClient.gift_data g1 = TikTokClient.gift_data g2 → g1 = g2.
Proof.
  intros H. destruct g1, g2.
  entry H "unique_id". entry H "nickname". entry H "gift_name".
  entry H "gift_id". entry H "repeat_count". entry H "cost".
  entry H "streaking". entry H "repeat_end". entry H "timestamp".
  congruence.
Qed.

(** The dict a handler broadcasts determines the upstream event it was
    built from: no two events of different kinds, and no two different
    events of one kind, give the same dict. *)
Theorem upstream_data_inj u1 u2 :
  Program.upstream_data u1 = Program.upstream_data u2 → u1 = u2.
Proof.
  intros H.
  destruct u1 as [r1| |e1|g1], u2 as [r2| |e2|g2]; simpl in H;
    try (entry H "type"; discriminate);
    try (entry H "message"; discriminate).
  - entry H "room_id". congruence.
  - done.
  - f_equal. by apply comment_data_inj.
  - f_equal. by apply gift_data_inj.
Qed.

Lemma upstream_data_known_kind u : Program.known_kind (Program.upstream_data u).
Proof.
  destruct u; [left|left|right; left|right; right]; reflexivity.
Qed.

Lemma handle_service u self h :
  handle send_json_raises u self h
  = (((handle send_json_raises u self h).1.1,
      (TikTokClient._broadcast (invoke send_json_raises)
         (handle send_json_raises u self h).1.1 (Program.upstream_data u) h).1),
     (TikTokClient._broadcast (invoke send_json_raises)
        (handle send_json_raises u self h).1.1 (Program.upstream_data u) h).2)
  ∧ TikTokClient.is_connected (handle send_json_raises u self h).1.1
    = match u with
      | ConnectEvent _ => true
      | DisconnectEvent => false
      | _ => TikTokClient.is_connected self
      end.
Proof. by destruct u. Qed.

(** Run in one piece, a handler broadcasts its dict once for every time
    the callback is in the list, and returns. *)
Lemma handle_broadcasts u self h :
  (handle send_json_raises u self h).1.2
  = broadcast_all
      (replicate (length (TikTokClient.callbacks self)) (Program.upstream_data u))
      h
  ∧ (handle send_json_raises u self h).2 = Ok tt.
Proof.
  destruct (handle_service u self h) as [-> _]. cbn [fst snd].
  unfold TikTokClient._broadcast.
  by rewrite _broadcast_from_callables, handle_callbacks.
Qed.

Lemma broadcast_known_kind data h :
  Program.known_kind data →
  Forall Program.known_kind (event_buffer h) →
  Forall Program.known_kind (event_buffer (broadcast data h).1).
Proof.
  intros Hdata Hbuf. rewrite broadcast_event_buffer.
  unfold buffer_event. simpl.
  assert (Forall Program.known_kind (event_buffer h ++ [data])) as Hall
    by (apply Forall_app; split; [done|by constructor]).
  case_decide; [|done]. rewrite tail_drop. by apply Forall_drop.
Qed.

Lemma upstream_single u self a :
  tiktok_service a = Some self →
  TikTokClient.callbacks self = [BroadcastToWebsockets] →
  hub (upstream send_json_raises u a)
  = (broadcast (Program.upstream_data u) (hub a)).1
  ∧ TikTokClient.callbacks <$> tiktok_service (upstream send_json_raises u a)
    = Some [BroadcastToWebsockets].
Proof.
  intros Hsvc Hcb. unfold upstream. rewrite Hsvc. simpl.
  rewrite handle_callbacks, Hcb. split; [|done].
  destruct (handle_broadcasts u self (hub a)) as [-> _]. by rewrite Hcb.
Qed.

Lemma move_invariant m a : Program.invariant a → Program.invariant (move m a).
Proof.
  intros (Hlen & Hkind & Hcb).
  destruct m as [|u|ws|ws i|ws r| |]; try done.
  - by repeat split; [..|right].
  - destruct (tiktok_service a) as [self|] eqn:Hsvc.
    + destruct Hcb as [|Hcb]; [done|]. simpl in Hcb.
      destruct (upstream_single u self a Hsvc) as [Hhub Hcb'];
        [congruence|].
      unfold Program.invariant, Program.move. rewrite Hhub, Hcb'.
      split; [|split; [|by right]].
      * rewrite broadcast_event_buffer. by apply buffer_event_length.
      * apply broadcast_known_kind; [apply upstream_data_known_kind|done].
    + unfold Program.move, upstream. rewrite Hsvc.
      split; [done|]. split; [done|]. by left.
  - unfold Program.invariant, Program.move, Program.on_hub. simpl.
    unfold replay_step.
    destruct (event_buffer (hub a) !! i); [|done]. simpl.
    by destruct (send_json_raises _ _ _).
  - unfold Program.invariant, Program.move, Program.on_hub. simpl.
    unfold receive_step. destruct r as [|[]]; try done.
    by destruct (set_remove ws (active_connections (hub a))).
Qed.

Lemma moves_invariant ms a : Program.invariant a → Program.invariant (moves ms a).
Proof.
  revert a. induction ms as [|m ms IH]; intros a Ha; [done|].
  apply (IH (move m a)), move_invariant, Ha.
Qed.

Lemma initial_invariant : Program.invariant initial.
Proof. repeat split; [simpl; lia|constructor|by left]. Qed.

(** In every state the program can get into from its initial one, the
    buffer holds at most [MAX_BUFFER_SIZE] events, and [get_status] and
    [get_recent_events] report that same number. *)
Theorem reachable_buffer_is_bounded ms :
  let a := moves ms initial in
  length (event_buffer (hub a)) ≤ MAX_BUFFER_SIZE
  ∧ (get_recent_events (hub a)).2 = length (event_buffer (hub a))
  ∧ ∃ d, (get_status TIKTOK_USERNAME a).2 = Ok d
         ∧ d !! "buffered_events"
           = Some (VInt (Z.of_nat (get_recent_events (hub a)).2)).
Proof.
  cbv zeta. destruct (moves_invariant ms initial initial_invariant) as (Hlen & _).
  split; [done|]. split; [done|]. by eexists.
Qed.

(** In every such state, each buffered event carries a ["type"] that is
    one of ["system"], ["comment"], ["gift"]. *)
Theorem reachable_events_have_known_kind ms :
  Forall Program.known_kind (event_buffer (hub (moves ms initial))).
Proof. by destruct (moves_invariant ms initial initial_invariant) as (_ & ? & _). Qed.

(** In every such state the broadcast callback is registered exactly
    once, if there is a service at all; so an upstream event costs one
    broadcast. *)
Theorem reachable_callback_registered_once ms u :
  let a := moves ms initial in
  (tiktok_service a = None
   ∨ TikTokClient.callbacks <$> tiktok_service a = Some [BroadcastToWebsockets])
  ∧ (tiktok_service a ≠ None →
     hub (move (Program.FromUpstream u) a)
     = (broadcast (Program.upstream_data u) (hub a)).1).
Proof.
  cbv zeta. destruct (moves_invariant ms initial initial_invariant) as (_ & _ & Hcb).
  split; [done|]. intros Hsvc.
  destruct (tiktok_service (moves ms initial)) as [self|] eqn:Heq; [|done].
  destruct Hcb as [|Hcb]; [done|]. simpl in Hcb.
  apply (upstream_single u self); [done|congruence].
Qed.

Lemma status_connected_flag a :
  status_connected a
  = Some (VBool (default false (TikTokClient.is_connected <$> tiktok_service a))).
Proof. unfold Program.status_connected. simpl. by destruct (tiktok_service a). Qed.

Lemma move_keeps_flag m a :
  Program.lifecycle m = false →
  TikTokClient.is_connected <$> tiktok_service (move m a)
  = TikTokClient.is_connected <$> tiktok_service a.
Proof.
  intros Hm. destruct m as [|u|ws|ws i|ws r| |]; try done.
  unfold Program.move, upstream.
  destruct (tiktok_service a) as [self|] eqn:Hsvc; [|by rewrite Hsvc]. simpl.
  destruct (handle_service u self (hub a)) as [_ ->]. by destruct u.
Qed.

Lemma moves_keep_flag ms a :
  Forall (λ m, Program.lifecycle m = false) ms →
  TikTokClient.is_connected <$> tiktok_service (moves ms a)
  = TikTokClient.is_connected <$> tiktok_service a.
Proof.
  intros Hms. revert a. induction Hms as [|m ms Hm _ IH]; intros a; [done|].
  change (moves (m :: ms) a) with (moves ms (move m a)).
  by rewrite IH, move_keeps_flag.
Qed.

(** What [get_status] reports as ["connected"] is the last lifecycle
    signal: true after an upstream connect, false after an upstream
    disconnect or a startup, whatever comments, gifts, attaches, replays,
    receives and queries came after it. *)
Theorem status_follows_last_lifecycle_signal room_id ms a :
  tiktok_service a ≠ None →
  Forall (λ m, Program.lifecycle m = false) ms →
  status_connected (moves (Program.FromUpstream (ConnectEvent room_id) :: ms) a)
  = Some (VBool true)
  ∧ status_connected (moves (Program.FromUpstream DisconnectEvent :: ms) a)
    = Some (VBool false)
  ∧ status_connected (moves (Program.Startup :: ms) a) = Some (VBool false).
Proof.
  intros Hsvc Hms. rewrite !status_connected_flag.
  change (moves (?m :: ms) a) with (moves ms (move m a)).
  rewrite !moves_keep_flag by done.
  unfold Program.move, upstream.
  by destruct (tiktok_service a) as [self|] eqn:Heq.
Qed.

End Reachable.

(** *** Further runs on concrete inputs *)

(** Two subscribers, the first of them broken. *)
Lemma failed_subscriber_gets_nothing_more_at_broken :
  let h1 := (broadcast_to_websockets (broken 7) (ev 0) (hub_with 0 {[7; 8]})).1 in
  (7 ∉ active_connections h1)
  ∧ Forall (λ a, conn a ≠ 7)
      (wire_since h1 (broadcast_all (broken 7) [ev 1] h1))
  ∧ received 7 (wire (broadcast_all (broken 7) [ev 1] h1)) = received 7 (wire h1).
Proof.
  apply (failed_subscriber_gets_nothing_more (broken 7) 7 (ev 0) [ev 1]
           (hub_with 0 {[7; 8]})).
  apply (bool_decide_unpack _). by vm_compute.
Defined.


(** Three events into a buffer that holds two. *)
Lemma buffer_keeps_everything_below_capacity_at_5 :
  get_recent_events (broadcast_all all_ok (ev <$> seq 2 3) (hub_with 2 ∅))
  = (event_buffer (hub_with 2 ∅) ++ (ev <$> seq 2 3),
     length (event_buffer (hub_with 2 ∅)) + length (ev <$> seq 2 3)).
Proof.
  apply (buffer_keeps_everything_below_capacity all_ok (ev <$> seq 2 3)
           (hub_with 2 ∅)).
  vm_compute. lia.
Defined.


(** A replay of two buffered comments with a third broadcast in between. *)
Lemma live_events_reach_a_healthy_subscriber_at_interleaving :
  let st := endpoint_accept 7 (hub_with 2 ∅) in
  let st' := run all_ok 7 [Replay; Ingest (ev 2); Replay; Receive (Text "hi"); Replay] st in
  7 ∈ active_connections st'.1
  ∧ Program.ingested [Replay; Ingest (ev 2); Replay; Receive (Text "hi"); Replay]
    `sublist_of` received 7 (wire_since st.1 st'.1).
Proof.
  apply (live_events_reach_a_healthy_subscriber all_ok 7
           [Replay; Ingest (ev 2); Replay; Receive (Text "hi"); Replay]
           (endpoint_accept 7 (hub_with 2 ∅))).
  - reflexivity.
  - apply (bool_decide_unpack _). by vm_compute.
  - by repeat constructor.
Defined.

(** Two connect events with the same dict. *)
Lemma upstream_data_inj_at_connect :
  ConnectEvent (VInt 1) = ConnectEvent (VInt (2 - 1)).
Proof. apply upstream_data_inj. reflexivity. Defined.

(** A connect, then a comment, an attach and a status query. *)
Lemma status_follows_last_lifecycle_signal_after_startup :
  let ms := [Program.FromUpstream (Comment {|
                 TikTokClient.comment_user_unique_id := VStr "u";
                 TikTokClient.comment_user_nickname := VStr "n";
                 TikTokClient.comment_comment := VStr "c";
                 TikTokClient.comment_timestamp := VInt 0 |});
             Program.Accept 7; Program.ReplayTurn 7 0; Program.Status] in
  let a := startup_event initial in
  Program.status_connected "user"
    (Program.moves all_ok "user" (Program.FromUpstream (ConnectEvent (VInt 1)) :: ms) a)
  = Some (VBool true)
  ∧ Program.status_connected "user"
      (Program.moves all_ok "user" (Program.FromUpstream DisconnectEvent :: ms) a)
    = Some (VBool false)
  ∧ Program.status_connected "user"
      (Program.moves all_ok "user" (Program.Startup :: ms) a)
    = Some (VBool false).
Proof.
  apply (status_follows_last_lifecycle_signal all_ok "user" (VInt 1)).
  - done.
  - by repeat constructor.
Defined.

(** *** The callback among other coroutines *)

Section Scheduling.
Variable send_json_raises : list Attempt → WebSocket → Event → option Exn.
Abbreviation act := (Loop.act send_json_raises).
Abbreviation loop := (Loop.loop send_json_raises).
Abbreviation sends_by := (Loop.sends_by send_json_raises).
Abbreviation quiet := (Loop.quiet send_json_raises).
Abbreviation pass_turn := (Main.pass_turn send_json_raises).

Lemma wire_since_same h h' : wire h' = wire h → wire_since h h' = [].
Proof. intros Hw. unfold wire_since. rewrite Hw. apply drop_all. Qed.

Lemma loop_cons a acts w : loop (a :: acts) w = loop acts (act a w).
Proof. reflexivity. Qed.

Lemma bystanders_same s ts : Loop.bystanders s s ts = ts.
Proof. unfold Loop.bystanders. by rewrite decide_True. Qed.

Lemma bystanders_length s1 s2 ts :
  length (Loop.bystanders s1 s2 ts) = length ts.
Proof. unfold Loop.bystanders. case_decide; [done|apply length_fmap]. Qed.

Lemma resumed_self k t h w :
  k < length (Loop.tasks w) →
  Loop.tasks (Loop.resumed k t h w) !! k = Some t.
Proof.
  intros Hk. unfold Loop.resumed. simpl.
  apply list_lookup_insert_eq. by rewrite bystanders_length.
Qed.

Lemma resumed_other k k' t h w :
  k' ≠ k →
  active_connections h = active_connections (hub (Loop.app w)) →
  Loop.tasks (Loop.resumed k' t h w) !! k = Loop.tasks w !! k.
Proof.
  intros Hk Hreg. unfold Loop.resumed. simpl.
  rewrite Hreg, bystanders_same. by apply list_lookup_insert_ne.
Qed.

Lemma spawned_other k t t' a w :
  Loop.tasks w !! k = Some t →
  active_connections (hub a) = active_connections (hub (Loop.app w)) →
  Loop.tasks (Loop.spawned t' a w) !! k = Some t.
Proof.
  intros Hk Hreg. unfold Loop.spawned. simpl.
  rewrite Hreg, bystanders_same. by apply lookup_app_l_Some.
Qed.

Lemma spawned_self t a w :
  Loop.tasks (Loop.spawned t a w) !! length (Loop.tasks w) = Some t.
Proof.
  unfold Loop.spawned. simpl.
  rewrite lookup_app_r by (by rewrite bystanders_length).
  by rewrite bystanders_length, Nat.sub_diag.
Qed.

(** A step of another coroutine that leaves the registry as it is
    leaves coroutine [k] as it is. *)
Lemma act_other k a w t :
  Loop.tasks w !! k = Some t →
  Loop.actor a w ≠ k →
  active_connections (hub (Loop.app (act a w)))
  = active_connections (hub (Loop.app w)) →
  Loop.tasks (act a w) !! k = Some t.
Proof.
  intros Hk Ha. destruct a as [ws|u|k' r]; simpl in Ha; unfold Loop.act.
  - intros Hreg. by apply spawned_other.
  - destruct (tiktok_service (Loop.app w)) as [self|]; [|done].
    intros Hreg. by apply spawned_other.
  - destruct (Loop.tasks w !! k') as [[ws [i| | |]|data later [d it disc| | |]]|];
      try done; intros Hreg; by rewrite resumed_other.
Qed.

(** One turn of a call that stands as [pass_in_order] says. *)
Lemma pass_turn_in_order registered data sends it h :
  Forall (λ s, payload s = data) sends →
  si_used it = size registered →
  si_stale it = false →
  (conn <$> sends) ++ si_pending it = elements registered →
  active_connections h = registered →
  let st := pass_turn data it (Wire.failed sends) h in
  Loop.pass_in_order registered data (sends ++ wire_since h st.1)
    (active_connections st.1) (Some (Loop.Handler data [] st.2))
  ∧ event_buffer st.1 = event_buffer h
  ∧ length (wire_since h st.1) ≤ 1.
Proof.
  intros Hpay Hused Hstale Hpend Hreg. destruct it as [used pending stale].
  simpl in *. subst used stale registered. rewrite pass_turn_fresh.
  destruct pending as [|c rest].
  - rewrite wire_since_same, !app_nil_r by done. simpl.
    rewrite app_nil_r in Hpend. split; [|split; [done|lia]].
    split; [done|]. by right.
  - set (a := {| conn := c; payload := data;
                 outcome := send_json_raises (wire h) c data |}).
    cbv zeta. cbn [fst snd]. fold a.
    rewrite (wire_since_app h _ [a]) by done. simpl.
    split; [|split; [done|lia]]. split.
    { apply Forall_app. split; [done|]. by repeat constructor. }
    left.
    exists {| si_used := size (active_connections h); si_pending := rest;
              si_stale := false |}.
    split; [|split; [done|split; [done|split; [|done]]]].
    + by rewrite failed_app, (comm_L (∪) (Wire.failed sends)).
    + simpl. by rewrite fmap_app, <-(assoc_L (++)).
Qed.

(** Every turn of a call takes one member off its iterator. *)
Lemma pass_turn_pending data it disconnected h data' it' disconnected' :
  (pass_turn data it disconnected h).2 = Fanning data' it' disconnected' →
  length (si_pending it) = S (length (si_pending it')).
Proof.
  unfold Main.pass_turn, set_next. case_decide; [|done].
  destruct (si_stale it); [done|].
  destruct (si_pending it) as [|c rest]; [done|]. unfold send_json.
  destruct (send_json_raises (wire h) c data); simpl; by intros [= _ <- _].
Qed.

(** One step of the event loop that does not disturb the call. *)
Lemma quiet_step_in_order k registered data a w sends :
  Loop.pass_in_order registered data sends
    (active_connections (hub (Loop.app w))) (Loop.tasks w !! k) →
  (Loop.actor a w ≠ k →
   active_connections (hub (Loop.app (act a w)))
   = active_connections (hub (Loop.app w))) →
  Loop.pass_in_order registered data
    (sends ++ (if decide (Loop.actor a w = k)
               then wire_since (hub (Loop.app w)) (hub (Loop.app (act a w)))
               else []))
    (active_connections (hub (Loop.app (act a w))))
    (Loop.tasks (act a w) !! k).
Proof.
  intros Hin Hreg.
  destruct (decide (Loop.actor a w = k)) as [Hk|Hk].
  - destruct Hin as [Hpay [(it & Ht & Hused & Hstale & Hpend & Hnow)
                          |(Ht & Hall & Hnow)]].
    + assert (k < length (Loop.tasks w)) as Hlen
        by (by apply lookup_lt_Some in Ht).
      destruct a as [ws|u|k' r]; simpl in Hk; try lia. subst k'.
      unfold Loop.act. rewrite Ht. cbn [Loop.settle fst snd].
      rewrite resumed_self by done. cbn [Loop.resumed Loop.app Loop.set_hub hub].
      by apply pass_turn_in_order.
    + assert (k < length (Loop.tasks w)) as Hlen
        by (by apply lookup_lt_Some in Ht).
      destruct a as [ws|u|k' r]; simpl in Hk; try lia. subst k'.
      unfold Loop.act. rewrite Ht.
      rewrite wire_since_same, app_nil_r by done.
      split; [done|]. right. by rewrite Ht.
  - specialize (Hreg Hk). rewrite app_nil_r, Hreg.
    destruct Hin as [Hpay [(it & Ht & Hrest)|(Ht & Hrest)]].
    + split; [done|]. left. exists it. split; [|done].
      by apply act_other.
    + split; [done|]. right. split; [|done]. by apply act_other.
Qed.

(** A call that nobody disturbs stays in order, whatever else runs. *)
Lemma quiet_keeps_order k registered data acts w sends :
  Loop.pass_in_order registered data sends
    (active_connections (hub (Loop.app w))) (Loop.tasks w !! k) →
  quiet k acts w →
  Loop.pass_in_order registered data (sends ++ sends_by k acts w)
    (active_connections (hub (Loop.app (loop acts w))))
    (Loop.tasks (loop acts w) !! k).
Proof.
  revert w sends. induction acts as [|a acts IH]; intros w sends Hin Hquiet.
  - simpl. by rewrite app_nil_r.
  - destruct Hquiet as [Hreg Hquiet]. rewrite loop_cons.
    cbn [Loop.sends_by]. rewrite (assoc_L (++)).
    apply IH; [|done]. by apply quiet_step_in_order.
Qed.

(** A call that is still under way has as many members less on its
    iterator as it has been resumed. *)
Lemma quiet_counts_turns k registered data acts w sends it disconnected :
  Loop.pass_in_order registered data sends
    (active_connections (hub (Loop.app w))) (Loop.tasks w !! k) →
  quiet k acts w →
  Loop.tasks (loop acts w) !! k
  = Some (Loop.Handler data [] (Fanning data it disconnected)) →
  ∃ it0 disconnected0,
    Loop.tasks w !! k
    = Some (Loop.Handler data [] (Fanning data it0 disconnected0))
    ∧ length (si_pending it0) = length (si_pending it) + Loop.resumes k acts.
Proof.
  revert w sends. induction acts as [|a acts IH]; intros w sends Hin Hquiet Hend.
  - exists it, disconnected. split; [done|]. simpl. lia.
  - destruct Hquiet as [Hreg Hquiet]. rewrite loop_cons in Hend.
    pose proof (quiet_step_in_order k registered data a w sends Hin Hreg) as Hin'.
    destruct (IH _ _ Hin' Hquiet Hend) as (it1 & disc1 & Ht1 & Hlen1).
    destruct (decide (Loop.actor a w = k)) as [Hk|Hk].
    + destruct Hin as [_ [(it0 & Ht0 & _)|(Ht0 & _)]].
      * assert (k < length (Loop.tasks w)) as Hlen
          by (by apply lookup_lt_Some in Ht0).
        destruct a as [ws|u|k' r]; simpl in Hk; try lia. subst k'.
        unfold Loop.act in Ht1. rewrite Ht0 in Ht1.
        cbn [Loop.settle fst snd] in Ht1. rewrite resumed_self in Ht1 by done.
        injection Ht1 as Ht1. apply pass_turn_pending in Ht1.
        eexists _, _. split; [done|]. simpl. rewrite decide_True by done. lia.
      * assert (k < length (Loop.tasks w)) as Hlen
          by (by apply lookup_lt_Some in Ht0).
        destruct a as [ws|u|k' r]; simpl in Hk; try lia. subst k'.
        unfold Loop.act in Ht1. rewrite Ht0 in Ht1. by rewrite Ht0 in Ht1.
    + assert (Loop.resumes k (a :: acts) = Loop.resumes k acts) as ->.
      { destruct a as [ws|u|k' r]; simpl in *; try done.
        by rewrite decide_False. }
      destruct Hin as [_ [(it0 & Ht0 & _)|(Ht0 & _)]].
      * rewrite (act_other k a w _ Ht0 Hk (Hreg Hk)) in Ht1.
        injection Ht1 as <- <-. by eexists _, _.
      * by rewrite (act_other k a w _ Ht0 Hk (Hreg Hk)) in Ht1.
Qed.

(** The handler of an upstream event, with the one callback of startup:
    the state right after it has started. *)
Lemma signal_starts u self w :
  tiktok_service (Loop.app w) = Some self →
  TikTokClient.callbacks self = [BroadcastToWebsockets] →
  let h := hub (Loop.app w) in
  let data := Program.upstream_data u in
  let st := pass_start send_json_raises data h in
  act (Loop.Signal u) w
  = Loop.spawned (Loop.Handler data [] st.2)
      {| tiktok_service := Some (Loop.flagged u self); hub := st.1 |} w.
Proof.
  intros Hsvc Hcb. cbv zeta. unfold Loop.act. rewrite Hsvc.
  assert (TikTokClient.callbacks (Loop.flagged u self) = [BroadcastToWebsockets])
    as -> by (by destruct u).
  done.
Qed.

(** The call such a handler makes, as long as nobody else changes the
    registry. *)
Lemma signal_in_order u self acts w :
  tiktok_service (Loop.app w) = Some self →
  TikTokClient.callbacks self = [BroadcastToWebsockets] →
  quiet (length (Loop.tasks w)) acts (act (Loop.Signal u) w) →
  Loop.pass_in_order (active_connections (hub (Loop.app w)))
    (Program.upstream_data u)
    (sends_by (length (Loop.tasks w)) (Loop.Signal u :: acts) w)
    (active_connections (hub (Loop.app (loop (Loop.Signal u :: acts) w))))
    (Loop.tasks (loop (Loop.Signal u :: acts) w) !! length (Loop.tasks w)).
Proof.
  intros Hsvc Hcb Hquiet. rewrite loop_cons. cbn [Loop.sends_by Loop.actor].
  rewrite decide_True by done.
  apply quiet_keeps_order; [|done].
  rewrite (signal_starts u self) by done.
  rewrite spawned_self. cbn [Loop.spawned Loop.app hub].
  unfold pass_start.
  destruct (pass_turn_in_order (active_connections (hub (Loop.app w)))
              (Program.upstream_data u) []
              (set_iter (active_connections
                           (buffer_event (Program.upstream_data u) (hub (Loop.app w)))))
              (buffer_event (Program.upstream_data u) (hub (Loop.app w))))
    as (Hin & _); try done.
Qed.

(** The call returns: resumed once for every subscriber registered at
    its start, and not disturbed, it is through line 45. *)
Lemma signal_returns u self acts w :
  tiktok_service (Loop.app w) = Some self →
  TikTokClient.callbacks self = [BroadcastToWebsockets] →
  quiet (length (Loop.tasks w)) acts (act (Loop.Signal u) w) →
  size (active_connections (hub (Loop.app w)))
  ≤ Loop.resumes (length (Loop.tasks w)) acts →
  Loop.tasks (loop (Loop.Signal u :: acts) w) !! length (Loop.tasks w)
  = Some (Loop.Handler (Program.upstream_data u) [] PassReturned).
Proof.
  intros Hsvc Hcb Hquiet Hturns.
  destruct (signal_in_order u self acts w Hsvc Hcb Hquiet)
    as [_ [(it & Ht & _)|(Ht & _)]]; [|done].
  exfalso. rewrite loop_cons in Ht.
  assert (Loop.pass_in_order (active_connections (hub (Loop.app w)))
            (Program.upstream_data u)
            (sends_by (length (Loop.tasks w)) [Loop.Signal u] w)
            (active_connections (hub (Loop.app (act (Loop.Signal u) w))))
            (Loop.tasks (act (Loop.Signal u) w) !! length (Loop.tasks w)))
    as Hstart.
  { apply (signal_in_order u self [] w Hsvc Hcb). exact I. }
  destruct (quiet_counts_turns _ _ _ _ _ _ _ _ Hstart Hquiet Ht)
    as (it0 & disc0 & Ht0 & Hlen).
  rewrite (signal_starts u self) in Ht0 by done.
  rewrite spawned_self in Ht0. injection Ht0 as Ht0.
  unfold pass_start in Ht0. apply pass_turn_pending in Ht0.
  change (length (si_pending (set_iter ?s))) with (size s) in Ht0.
  change (active_connections (buffer_event ?d ?h))
    with (active_connections h) in Ht0.
  lia.
Qed.

(** What a subscriber gets from sends that went to each connection at
    most once, when the one to it did not raise. *)
Lemma received_none c (sends : list Attempt) :
  c ∉ conn <$> sends → received c sends = [].
Proof.
  intros Hc. unfold received. rewrite filter_none; [done|].
  apply Forall_forall. intros a Ha [Heq _]. apply Hc.
  apply list_elem_of_fmap. by exists a.
Qed.

Lemma received_once c data (sends : list Attempt) :
  Forall (λ s, payload s = data) sends →
  NoDup (conn <$> sends) →
  c ∈ conn <$> sends →
  c ∉ Wire.failed sends →
  received c sends = [data].
Proof.
  induction 1 as [|a sends Ha Hpay IH]; [by intros _ ?%elem_of_nil|].
  rewrite fmap_cons, NoDup_cons, (failed_cons send_json_raises).
  intros [Hfresh Hnd] Hin Hok.
  unfold received. rewrite filter_cons.
  destruct (decide (conn a = c)) as [<-|Hne].
  - destruct (decide (outcome a = None)) as [Hout|Hout]; [|set_solver].
    rewrite decide_True by done. rewrite fmap_cons, Ha. f_equal.
    by apply received_none.
  - rewrite decide_False by (by intros [? _]).
    apply IH; [done| |set_solver].
    apply elem_of_cons in Hin as [Heq|Hin]; [by destruct Hne|done].
Qed.


Lemma act_started_once a w : Loop.started_once w → Loop.started_once (act a w).
Proof.
  intros [Hcb Hlater].
  assert (∀ s1 s2, Forall (λ t, ∀ data later pass,
                      t = Loop.Handler data later pass → later = [])
                     (Loop.bystanders s1 s2 (Loop.tasks w))) as Hby.
  { intros s1 s2. unfold Loop.bystanders. case_decide; [done|].
    apply Forall_fmap. eapply Forall_impl; [done|].
    intros [ws p|data later [d it disc| | |]] Ht data' later' pass' [=]; subst.
    all: by eapply Ht. }
  destruct a as [ws|u|k r]; unfold Loop.act.
  - split; [done|]. apply Forall_app. split; [apply Hby|].
    by repeat constructor.
  - destruct (tiktok_service (Loop.app w)) as [self|] eqn:Hsvc; [|done].
    simpl in Hcb. injection Hcb as Hcb.
    assert (TikTokClient.callbacks (Loop.flagged u self) = [BroadcastToWebsockets])
      as Hcb' by (by destruct u).
    rewrite Hcb'. split; [by simpl; rewrite Hcb'|].
    apply Forall_app. split; [apply Hby|].
    repeat constructor. by intros data later pass [= _ <- _].
  - destruct (Loop.tasks w !! k) as [[ws [i| | |]|data later [d it disc| | |]]|]
      eqn:Hk; try done.
    + split; [done|]. apply Forall_insert; [apply Hby|done].
    + split; [done|]. apply Forall_insert; [apply Hby|done].
    + rewrite Forall_lookup in Hlater.
      rewrite (Hlater _ _ Hk data later _ eq_refl).
      split; [done|]. apply Forall_insert; [apply Hby|].
      by intros data' later' pass' [= _ <- _].
Qed.

(** Only the start of a handler writes the buffer. *)
Lemma act_event_buffer a w :
  Loop.started_once w →
  event_buffer (hub (Loop.app (act a w)))
  = match a with
    | Loop.Signal u =>
        event_buffer (buffer_event (Program.upstream_data u) (hub (Loop.app w)))
    | _ => event_buffer (hub (Loop.app w))
    end.
Proof.
  intros [Hcb Hlater]. destruct a as [ws|u|k r].
  - done.
  - destruct (tiktok_service (Loop.app w)) as [self|] eqn:Hsvc; [|done].
    simpl in Hcb. injection Hcb as Hcb.
    rewrite (signal_starts u self) by done. apply pass_start_event_buffer.
  - unfold Loop.act.
    destruct (Loop.tasks w !! k) as [[ws [i| | |]|data later [d it disc| | |]]|]
      eqn:Hk; try done.
    + simpl. unfold replay_step.
      destruct (event_buffer (hub (Loop.app w)) !! i); [|done]. simpl.
      by destruct (send_json_raises _ _ _).
    + simpl. unfold receive_step. destruct r as [|[]]; try done.
      by destruct (set_remove ws (active_connections (hub (Loop.app w)))).
    + rewrite Forall_lookup in Hlater.
      rewrite (Hlater _ _ Hk data later _ eq_refl). simpl.
      apply pass_turn_event_buffer.
Qed.

Lemma buffer_event_congruence data h1 h2 :
  event_buffer h1 = event_buffer h2 →
  event_buffer (buffer_event data h1) = event_buffer (buffer_event data h2).
Proof. intros Hb. unfold buffer_event. simpl. by rewrite Hb. Qed.

Lemma loop_event_buffer acts w h :
  Loop.started_once w →
  event_buffer h = event_buffer (hub (Loop.app w)) →
  event_buffer (hub (Loop.app (loop acts w)))
  = event_buffer
      (foldl (λ h data, buffer_event data h) h
         (Program.upstream_data <$> Loop.signals acts)).
Proof.
  revert w h. induction acts as [|a acts IH]; intros w h Hw Hh; [done|].
  rewrite loop_cons.
  destruct a as [ws|u|k r].
  - change (Loop.signals (Loop.Connect ws :: acts)) with (Loop.signals acts).
    apply IH; [by apply act_started_once|by rewrite act_event_buffer].
  - change (Loop.signals (Loop.Signal u :: acts)) with (u :: Loop.signals acts).
    rewrite fmap_cons. cbn [foldl]. apply IH; [by apply act_started_once|].
    rewrite act_event_buffer by done. by apply buffer_event_congruence.
  - change (Loop.signals (Loop.Resume k r :: acts)) with (Loop.signals acts).
    apply IH; [by apply act_started_once|by rewrite act_event_buffer].
Qed.

(** C9.  When the handler of an upstream event has run to its first
    suspension, the event is the last entry of the buffer and at most
    the first send of it has gone on the wire.  From then on, whatever
    the event loop runs (sends that raise, an empty registry, a call
    abandoned because the registry changed, connects, disconnects), the
    buffer changes by the appends of later upstream events and by
    nothing else; until such an event comes, what [get_recent_events]
    returns and what the replay of a newly accepted WebSocket walks end
    with the event. *)
Theorem event_buffered_at_first_suspension u acts w :
  Loop.started_once w →
  let data := Program.upstream_data u in
  let w1 := act (Loop.Signal u) w in
  let w' := loop acts w1 in
  last (event_buffer (hub (Loop.app w1))) = Some data
  ∧ length (wire_since (hub (Loop.app w)) (hub (Loop.app w1))) ≤ 1
  ∧ event_buffer (hub (Loop.app w'))
    = event_buffer
        (foldl (λ h data, buffer_event data h) (hub (Loop.app w1))
           (Program.upstream_data <$> Loop.signals acts))
  ∧ (Loop.signals acts = [] →
     last (get_recent_events (hub (Loop.app w'))).1 = Some data
     ∧ ∀ ws, last (event_buffer (endpoint_accept ws (hub (Loop.app w'))).1)
             = Some data).
Proof.
  intros Hw. cbv zeta.
  assert (last (event_buffer (hub (Loop.app (act (Loop.Signal u) w))))
          = Some (Program.upstream_data u)) as Hlast.
  { rewrite act_event_buffer by done. apply buffer_event_last. }
  pose proof (loop_event_buffer acts (act (Loop.Signal u) w)
                (hub (Loop.app (act (Loop.Signal u) w)))
                (act_started_once _ _ Hw) eq_refl) as Hbuf.
  split; [done|]. split; [|split; [done|]].
  - destruct Hw as [Hcb _].
    destruct (tiktok_service (Loop.app w)) as [self|] eqn:Hsvc; [|done].
    simpl in Hcb. injection Hcb as Hcb.
    rewrite (signal_starts u self) by done. cbn [Loop.spawned Loop.app hub].
    unfold pass_start.
    by destruct (pass_turn_in_order (active_connections (hub (Loop.app w)))
                   (Program.upstream_data u) []
                   (set_iter (active_connections
                      (buffer_event (Program.upstream_data u) (hub (Loop.app w)))))
                   (buffer_event (Program.upstream_data u) (hub (Loop.app w))))
      as (_ & _ & Hlen).
  - intros Hnone. rewrite Hnone in Hbuf. simpl in Hbuf.
    unfold get_recent_events. simpl. by rewrite Hbuf.
Qed.


End Scheduling.



(** C9 on two subscribers, the send to 2 raising, with a WebSocket
    accepted while the call awaits its first send. *)
Lemma event_buffered_at_first_suspension_at_abandoned :
  let w := Samples.world_with [1; 2] in
  let acts := [Loop.Connect 3; Loop.Resume 2 (Text "")] in
  let w1 := Loop.act (Samples.broken 2) (Loop.Signal (Samples.comment 0)) w in
  let w' := Loop.loop (Samples.broken 2) acts w1 in
  last (event_buffer (hub (Loop.app w1))) = Some (Samples.ev 0)
  ∧ length (wire_since (hub (Loop.app w)) (hub (Loop.app w1))) ≤ 1
  ∧ event_buffer (hub (Loop.app w'))
    = event_buffer
        (foldl (λ h data, buffer_event data h) (hub (Loop.app w1))
           (Program.upstream_data <$> Loop.signals acts))
  ∧ (Loop.signals acts = [] →
     last (get_recent_events (hub (Loop.app w'))).1 = Some (Samples.ev 0)
     ∧ ∀ ws, last (event_buffer (endpoint_accept ws (hub (Loop.app w'))).1)
             = Some (Samples.ev 0)).
Proof.
  apply (event_buffered_at_first_suspension (Samples.broken 2) (Samples.comment 0)
           [Loop.Connect 3; Loop.Resume 2 (Text "")] (Samples.world_with [1; 2])).
  split; [reflexivity|]. by repeat constructor.
Defined.


